(** * ClusterAnalysisTool: aggregation, radar normalisation, approach
      suggestion and generation specs

    A shallow embedding of [src/ClusterAnalysisTool.jsx].  The React
    component keeps five pieces of state ([clusterStats],
    [selectedCluster], [generationSpecs], [selectedApproaches],
    [trendTokens]); every handler is embedded as a function on a [State]
    record, and every helper keeps the name it has in the source.

    Modelling conventions.
    - A JavaScript number is a [number]: a rational, [Infinity],
      [-Infinity] or [NaN].  Arithmetic follows IEEE-754 for the special
      values and for overflow: a sum, product or quotient whose exact value
      is out of the binary64 range is an infinity.  Within the range it is
      exact (binary64 rounding and the sign of zero are not modelled).  The
      module [Binary64] re-evaluates, in hardware binary64, the concrete
      computations whose outcome sits on a threshold or leaves the range.
    - Property text is a [string] of 8-bit code units.
    - The [cluster] column holds integers.  The parser yields an integer
      strictly between -2^53 and 2^53 as a number and any other as the
      string of its digits, which arithmetic converts to the nearest
      binary64 value (module [Label]); labels that are not integers are
      not modelled.  A metric column holds a finite number or nothing
      ([None] for an absent, [undefined] or [null] cell).
    - A plain object is an insertion-ordered list of key/value pairs when
      its enumeration order is observed ([clusterGroups]) and a [gmap]
      otherwise.
    - Of the page itself the controls of a cluster card are modelled, as
      the events of a transition system; the charts and the JSON download
      take no part in the properties below. *)

From Stdlib Require Import ZArith QArith Qround Qabs List String Ascii.
From Stdlib Require Import DecimalString Sorted Permutation Lia Lqa Bool.
From Stdlib Require Import Floats.PrimFloat.
From stdpp Require Import gmap.
Import ListNotations.

(* Decimal literals such as 0.3 denote the nearest binary64 value. *)
Set Warnings "-inexact-float".

Local Open Scope Z_scope.

(** ** JavaScript primitives *)

Module JS.

(** *** Numbers *)

Inductive number : Type :=
| Finite (q : Q)
| Infinity
| NegInfinity
| NaN.

Definition Qltb (a b : Q) : bool := negb (Qle_bool b a).

(** The magnitude from which a result no longer fits binary64 and becomes
    an infinity: halfway between the largest finite value,
    [2^1024 - 2^971], and [2^1024]. *)
Definition overflow_threshold : Q := inject_Z (2 ^ 1024 - 2 ^ 970).

(** The result of an operation on finite numbers whose exact value is
    [q]: [q] itself, or an infinity when [q] is out of range. *)
Definition overflow (q : Q) : number :=
  if Qle_bool overflow_threshold q then Infinity
  else if Qle_bool q (Qopp overflow_threshold) then NegInfinity
  else Finite q.

(** [a + b] *)
Definition add (a b : number) : number :=
  match a, b with
  | NaN, _ | _, NaN => NaN
  | Finite x, Finite y => overflow (x + y)
  | Infinity, NegInfinity | NegInfinity, Infinity => NaN
  | Infinity, _ | _, Infinity => Infinity
  | NegInfinity, _ | _, NegInfinity => NegInfinity
  end.

(** [-a] *)
Definition neg (a : number) : number :=
  match a with
  | Finite x => Finite (- x)
  | Infinity => NegInfinity
  | NegInfinity => Infinity
  | NaN => NaN
  end.

(** [a - b] *)
Definition sub (a b : number) : number := add a (neg b).

(** the sign of a non-NaN number: -1, 0 or 1 *)
Definition sign (a : number) : Z :=
  match a with
  | Finite x => if Qltb x 0 then -1 else if Qltb 0 x then 1 else 0
  | Infinity => 1
  | NegInfinity => -1
  | NaN => 0
  end.

Definition signed_infinity (s : Z) : number :=
  if s <? 0 then NegInfinity else if 0 <? s then Infinity else NaN.

(** [a * b] *)
Definition mul (a b : number) : number :=
  match a, b with
  | NaN, _ | _, NaN => NaN
  | Finite x, Finite y => overflow (x * y)
  | _, _ => signed_infinity (sign a * sign b)
  end.

(** [a / b]; a zero divisor counts as [+0] *)
Definition div (a b : number) : number :=
  match a, b with
  | NaN, _ | _, NaN => NaN
  | Finite x, Finite y =>
      if Qeq_bool y 0 then signed_infinity (sign a) else overflow (x / y)
  | Finite _, _ => Finite 0
  | _, Finite y => signed_infinity (sign a * (if Qltb y 0 then -1 else 1))
  | _, _ => NaN
  end.

(** [a < b] *)
Definition ltb (a b : number) : bool :=
  match a, b with
  | NaN, _ | _, NaN => false
  | Finite x, Finite y => Qltb x y
  | NegInfinity, (Finite _ | Infinity) => true
  | Finite _, Infinity => true
  | _, _ => false
  end.

(** [a > b] *)
Definition gtb (a b : number) : bool := ltb b a.

(** [a === b] on numbers *)
Definition eqb (a b : number) : bool :=
  match a, b with
  | Finite x, Finite y => Qeq_bool x y
  | Infinity, Infinity | NegInfinity, NegInfinity => true
  | _, _ => false
  end.

(** the number of elements of an array, as a number *)
Definition length_of {A} (arr : list A) : number :=
  Finite (inject_Z (Z.of_nat (length arr))).

(** truthiness of a number: [0] and [NaN] are falsy *)
Definition truthy (a : number) : bool :=
  match a with
  | Finite x => negb (Qeq_bool x 0)
  | NaN => false
  | _ => true
  end.

(** [a || d] where [a] is a number *)
Definition or_else (a d : number) : number := if truthy a then a else d.

(** [v || d] where [v] is a cell of a parsed row: a number, or nothing
    ([undefined] / [null], both falsy) *)
Definition cell_or (v : option Q) (d : number) : number :=
  match v with
  | Some x => or_else (Finite x) d
  | None => d
  end.

(** *** Math *)

Definition min2 (a b : number) : number :=
  match a, b with
  | NaN, _ | _, NaN => NaN
  | _, _ => if ltb b a then b else a
  end.

Definition max2 (a b : number) : number :=
  match a, b with
  | NaN, _ | _, NaN => NaN
  | _, _ => if ltb a b then b else a
  end.

(** [Math.min(...arr)]: [Infinity] when there is no argument *)
Definition Math_min (arr : list number) : number := fold_left min2 arr Infinity.

(** [Math.max(...arr)]: [-Infinity] when there is no argument *)
Definition Math_max (arr : list number) : number := fold_left max2 arr NegInfinity.

(** The values [Math.round] can return: an integer or a special value. *)
Inductive integral : Type :=
| Int (z : Z)
| IntInfinity
| IntNegInfinity
| IntNaN.

(** [Math.round(a)]: the integer nearest to [a], ties towards [+Infinity] *)
Definition Math_round (a : number) : integral :=
  match a with
  | Finite x => Int (Qfloor (x + 0.5))
  | Infinity => IntInfinity
  | NegInfinity => IntNegInfinity
  | NaN => IntNaN
  end.

(** *** Strings *)

Local Open Scope string_scope.

Definition digits (z : Z) : string := NilZero.string_of_int (Z.to_int z).

(** [`${n}`] for a result of [Math.round].  (Beyond 10^21 JavaScript
    switches to exponent notation over the binary64 digits; the model
    prints the integer in full.) *)
Definition integral_to_string (n : integral) : string :=
  match n with
  | Int z => digits z
  | IntInfinity => "Infinity"
  | IntNegInfinity => "-Infinity"
  | IntNaN => "NaN"
  end.

Fixpoint zeros (n : nat) : string :=
  match n with
  | O => ""
  | S n' => "0" ++ zeros n'
  end.

(** [a.toFixed(f)]: sign, then the integer [n] closest to [|a| * 10^f]
    (the larger one on a tie) printed with [f] digits after the point.
    (Beyond 10^21 JavaScript falls back to exponent notation; the model
    keeps fixed notation.) *)
Definition toFixed (a : number) (f : nat) : string :=
  match a with
  | NaN => "NaN"
  | Infinity => "Infinity"
  | NegInfinity => "-Infinity"
  | Finite x =>
      let s := if Qltb x 0 then "-" else "" in
      let n := Qfloor (Qabs x * inject_Z (10 ^ Z.of_nat f) + 0.5) in
      let m := digits n in
      let k := String.length m in
      let m := if (k <=? f)%nat then zeros (f + 1 - k) ++ m else m in
      let k := String.length m in
      if (f =? 0)%nat then s ++ m
      else s ++ substring 0 (k - f) m ++ "." ++ substring (k - f) f m
  end.

(** White space and line terminators among the 8-bit code units:
    TAB, LF, VT, FF, CR, SP and NBSP. *)
Definition is_space (c : ascii) : bool :=
  let n := nat_of_ascii c in
  ((9 <=? n) && (n <=? 13) || (n =? 32) || (n =? 160))%nat.

Fixpoint trimStart (s : string) : string :=
  match s with
  | String c s' => if is_space c then trimStart s' else s
  | EmptyString => EmptyString
  end.

Fixpoint trimEnd (s : string) : string :=
  match s with
  | String c s' =>
      match trimEnd s' with
      | EmptyString => if is_space c then EmptyString else String c EmptyString
      | r => String c r
      end
  | EmptyString => EmptyString
  end.

(** [s.trim()] *)
Definition trim (s : string) : string := trimEnd (trimStart s).

(** [!s] for a string: only the empty string is falsy *)
Definition is_empty (s : string) : bool :=
  match s with
  | EmptyString => true
  | _ => false
  end.

(** [arr.includes(s)] on an array of strings *)
Definition includes (arr : list string) (s : string) : bool :=
  existsb (String.eqb s) arr.

Local Close Scope string_scope.

(** *** Arrays *)

(** [arr.find(p)] *)
Definition find {A} (p : A -> bool) (arr : list A) : option A := List.find p arr.

(** [arr.filter((_, i) => p(i))] *)
Fixpoint filter_index {A} (p : nat -> bool) (i : nat) (arr : list A) : list A :=
  match arr with
  | [] => []
  | x :: arr' =>
      if p i then x :: filter_index p (S i) arr' else filter_index p (S i) arr'
  end.

(** [arr.sort(cmp)]: the sort is stable; [x] goes after [y] exactly when
    [cmp(x, y) > 0], so a result of [0] or [NaN] keeps the two in the order
    they had.  (With a comparator that is not consistent the order is left
    to the engine; the comparator of the source orders by a number and is
    consistent.) *)
Fixpoint sort_insert {A} (cmp : A -> A -> number) (x : A) (arr : list A) : list A :=
  match arr with
  | [] => [x]
  | y :: arr' =>
      if gtb (cmp x y) (Finite 0) then y :: sort_insert cmp x arr' else x :: arr
  end.

Definition sort {A} (cmp : A -> A -> number) (arr : list A) : list A :=
  fold_right (sort_insert cmp) [] arr.

(** The list in ascending order of an integer key, entries of one key in
    the order they had. *)
Fixpoint insert_by {A} (key : A -> Z) (x : A) (l : list A) : list A :=
  match l with
  | [] => [x]
  | y :: l' => if key y <? key x then y :: insert_by key x l' else x :: l
  end.

Definition ascending_by {A} (key : A -> Z) (l : list A) : list A :=
  fold_right (insert_by key) [] l.

(** *** Objects with integer keys, in property order *)

(** An object whose keys are integers printed in decimal.  The list keeps
    the order in which the properties were created. *)
Definition object (V : Type) : Type := list (Z * V).

(** [o[k]] *)
Fixpoint get {V} (o : object V) (k : Z) : option V :=
  match o with
  | [] => None
  | (k', v) :: o' => if k =? k' then Some v else get o' k
  end.

(** [o[k] = v]: overwrite in place, or create the property last *)
Fixpoint set {V} (o : object V) (k : Z) (v : V) : object V :=
  match o with
  | [] => [(k, v)]
  | (k', v') :: o' => if k =? k' then (k, v) :: o' else (k', v') :: set o' k v
  end.

(** [o[k].field = ...]: mutate, in place, the object stored under [k].
    Every call site has just made sure that [o[k]] exists. *)
Fixpoint update {V} (o : object V) (k : Z) (f : V -> V) : object V :=
  match o with
  | [] => []
  | (k', v) :: o' => if k =? k' then (k', f v) :: o' else (k', v) :: update o' k f
  end.

(** A key is an array index when it is the decimal form of an integer in
    [0, 2^32 - 2]. *)
Definition is_array_index (k : Z) : bool := (0 <=? k) && (k <? 2 ^ 32 - 1).

(** Property enumeration order: array indices in ascending order, then the
    other keys in creation order. *)
Definition own_entries {V} (o : object V) : list (Z * V) :=
  ascending_by fst (List.filter (fun e => is_array_index (fst e)) o)
  ++ List.filter (fun e => negb (is_array_index (fst e))) o.

(** [Object.values(o)] *)
Definition Object_values {V} (o : object V) : list V := map snd (own_entries o).

End JS.

Declare Scope js_scope.
Delimit Scope js_scope with js.
Bind Scope js_scope with JS.number.
Coercion JS.Finite : Q >-> JS.number.

Infix "+" := JS.add : js_scope.
Infix "-" := JS.sub : js_scope.
Infix "*" := JS.mul : js_scope.
Infix "/" := JS.div : js_scope.
Infix "<?" := JS.ltb : js_scope.
Infix ">?" := JS.gtb (at level 70) : js_scope.
Infix "===" := JS.eqb (at level 70) : js_scope.
Infix "||" := JS.cell_or : js_scope.

(** ** Cluster labels *)

(** A cell of the [cluster] column holds an integer, written in decimal.
    The parser ([dynamicTyping: true]) yields it as a number when it lies
    strictly between [-2^53] and [2^53], and as the string of its digits
    otherwise.  Either way the label is the integer [z] below; as a
    property key and under [===] two labels agree exactly when the
    integers do.  Only arithmetic tells the two kinds apart. *)
Module Label.

Definition parsed_as_number (z : Z) : bool := (- 2 ^ 53 <? z) && (z <? 2 ^ 53).

(** The binary64 value nearest to an integer, a tie going to the even
    significand: what [Number(s)] is for the string [s] of its digits. *)
Definition nearest_binary64 (z : Z) : JS.number :=
  let a := Z.abs z in
  let e := Z.log2 a - 52 in
  if e <=? 0 then JS.Finite (inject_Z z)
  else
    let m := Z.shiftr a e in
    let r := Z.land a (Z.ones e) in
    let half := Z.shiftl 1 (e - 1) in
    let up := (half <? r) || ((half =? r) && Z.odd m) in
    let m := if up then m + 1 else m in
    JS.overflow (inject_Z (Z.sgn z * Z.shiftl m e)).

(** [ToNumber(label)], which [-] applies to its operands: the number
    itself, or the number a string of digits converts to. *)
Definition ToNumber (z : Z) : JS.number :=
  if parsed_as_number z then JS.Finite (inject_Z z) else nearest_binary64 z.

End Label.

(** ** Data model *)

(** One parsed row of the interpretation table. *)
Module VideoRecord.
Record t : Type := {
  cluster : Z;
  motion_mean : option Q;
  cut_rate_per_min : option Q;
  audio_rms_mean : option Q;
  audio_rms_std : option Q;
  visual_density : option Q
}.
End VideoRecord.

(** The accumulator object kept per cluster while the rows are visited. *)
Module ClusterGroup.
Record t : Type := {
  cluster : Z;
  count : nat;
  videos : list VideoRecord.t;
  motion_values : list JS.number;
  cut_rate_values : list JS.number;
  audio_rms_mean_values : list JS.number;
  audio_rms_std_values : list JS.number;
  visual_density_values : list JS.number
}.
End ClusterGroup.

Module ClusterStats.
Record t : Type := {
  cluster : Z;
  count : nat;
  avg_motion : JS.number;
  min_motion : JS.number;
  max_motion : JS.number;
  avg_cut_rate : JS.number;
  min_cut_rate : JS.number;
  max_cut_rate : JS.number;
  avg_audio_rms_mean : JS.number;
  avg_audio_rms_std : JS.number;
  avg_visual_density : JS.number;
  min_visual_density : JS.number;
  max_visual_density : JS.number;
  videos : list VideoRecord.t
}.
End ClusterStats.

(** The three generation approaches offered by the approach buttons. *)
Inductive Approach : Type :=
| text_driven
| image_conditioned
| motion_focused.

Definition approach_name (a : Approach) : string :=
  match a with
  | text_driven => "text-driven"
  | image_conditioned => "image-conditioned"
  | motion_focused => "motion-focused"
  end.

Module GenerationSpec.
Record VisualStyle : Type := {
  visual_complexity : string;
  detail_level : string;
  consistency : string
}.
Record MotionProfile : Type := {
  camera_movement : string;
  motion_intensity : JS.integral;
  motion_range : string;
  pacing : string;
  cuts_per_minute : JS.integral;
  cut_rate_range : string
}.
Record AudioProfile : Type := {
  volume_level : string;
  dynamic_range : string;
  audio_rms_mean : string;
  audio_rms_std : string
}.
Record BasePromptComponents : Type := {
  visual_style : VisualStyle;
  motion_profile : MotionProfile;
  audio_profile : AudioProfile
}.
Record TrendTokens : Type := {
  enabled : bool;
  tokens : list string;
  usage_note : string;
  application_strategy : string
}.
Record Constraints : Type := {
  sample_count : nat;
  variation_strategy : string
}.
Record GenerationHints : Type := {
  note : string
}.
Record t : Type := {
  cluster_id : Z;
  generation_approach : string;
  base_prompt_components : BasePromptComponents;
  trend_tokens : TrendTokens;
  constraints : Constraints;
  generation_hints : GenerationHints
}.
End GenerationSpec.

(** ** Component state *)

(** The [useState] cells of the component.  ([clusterResults] only feeds a
    row counter in the page and is left out.) *)
Record State : Type := {
  interpretationData : option (list VideoRecord.t);
  clusterStats : option (list ClusterStats.t);
  selectedCluster : option Z;
  generationSpecs : gmap Z GenerationSpec.t;
  selectedApproaches : gmap Z Approach;
  trendTokens : gmap Z (list string)
}.

(** The state on first render. *)
Definition initialState : State := {|
  interpretationData := None;
  clusterStats := None;
  selectedCluster := None;
  generationSpecs := ∅;
  selectedApproaches := ∅;
  trendTokens := ∅
|}.

Definition setInterpretationData (v : option (list VideoRecord.t)) (s : State) : State :=
  {| interpretationData := v;
     clusterStats := clusterStats s;
     selectedCluster := selectedCluster s;
     generationSpecs := generationSpecs s;
     selectedApproaches := selectedApproaches s;
     trendTokens := trendTokens s |}.

Definition setClusterStats (v : option (list ClusterStats.t)) (s : State) : State :=
  {| interpretationData := interpretationData s;
     clusterStats := v;
     selectedCluster := selectedCluster s;
     generationSpecs := generationSpecs s;
     selectedApproaches := selectedApproaches s;
     trendTokens := trendTokens s |}.

Definition setSelectedCluster (v : option Z) (s : State) : State :=
  {| interpretationData := interpretationData s;
     clusterStats := clusterStats s;
     selectedCluster := v;
     generationSpecs := generationSpecs s;
     selectedApproaches := selectedApproaches s;
     trendTokens := trendTokens s |}.

(** The setters below take an updater [prev => next], as the source does. *)
Definition setGenerationSpecs
    (f : gmap Z GenerationSpec.t -> gmap Z GenerationSpec.t) (s : State) : State :=
  {| interpretationData := interpretationData s;
     clusterStats := clusterStats s;
     selectedCluster := selectedCluster s;
     generationSpecs := f (generationSpecs s);
     selectedApproaches := selectedApproaches s;
     trendTokens := trendTokens s |}.

Definition setSelectedApproaches
    (f : gmap Z Approach -> gmap Z Approach) (s : State) : State :=
  {| interpretationData := interpretationData s;
     clusterStats := clusterStats s;
     selectedCluster := selectedCluster s;
     generationSpecs := generationSpecs s;
     selectedApproaches := f (selectedApproaches s);
     trendTokens := trendTokens s |}.

Definition setTrendTokens
    (f : gmap Z (list string) -> gmap Z (list string)) (s : State) : State :=
  {| interpretationData := interpretationData s;
     clusterStats := clusterStats s;
     selectedCluster := selectedCluster s;
     generationSpecs := generationSpecs s;
     selectedApproaches := selectedApproaches s;
     trendTokens := f (trendTokens s) |}.

(** ** calculateClusterStats *)

Section CalculateClusterStats.
Import ClusterGroup.

Definition newGroup (cluster : Z) : ClusterGroup.t := {|
  cluster := cluster;
  count := 0;
  videos := [];
  motion_values := [];
  cut_rate_values := [];
  audio_rms_mean_values := [];
  audio_rms_std_values := [];
  visual_density_values := []
|}.

(** [count++] and the six [push] calls on the group of the row *)
Definition pushRow (row : VideoRecord.t) (g : ClusterGroup.t) : ClusterGroup.t := {|
  cluster := cluster g;
  count := S (count g);
  videos := videos g ++ [row];
  motion_values :=
    motion_values g ++ [(VideoRecord.motion_mean row || 0%Q)%js];
  cut_rate_values :=
    cut_rate_values g ++ [(VideoRecord.cut_rate_per_min row || 0%Q)%js];
  audio_rms_mean_values :=
    audio_rms_mean_values g ++ [(VideoRecord.audio_rms_mean row || 0%Q)%js];
  audio_rms_std_values :=
    audio_rms_std_values g ++ [(VideoRecord.audio_rms_std row || 0%Q)%js];
  visual_density_values :=
    visual_density_values g ++ [(VideoRecord.visual_density row || 0%Q)%js]
|}.

(** The body of [data.forEach(row => ...)]. *)
Definition visitRow (clusterGroups : JS.object ClusterGroup.t) (row : VideoRecord.t)
    : JS.object ClusterGroup.t :=
  let cluster := VideoRecord.cluster row in
  let clusterGroups :=
    match JS.get clusterGroups cluster with
    | None => JS.set clusterGroups cluster (newGroup cluster)
    | Some _ => clusterGroups
    end in
  JS.update clusterGroups cluster (pushRow row).

(** [clusterGroups] once every row has been visited. *)
Definition clusterGroups (data : list VideoRecord.t) : JS.object ClusterGroup.t :=
  fold_left visitRow data [].

Definition avg (arr : list JS.number) : JS.number :=
  (fold_left (fun a b => a + b) arr (JS.Finite 0) / JS.length_of arr)%js.

(** The callback of [Object.values(clusterGroups).map(cluster => ...)]. *)
Definition statsOfGroup (cluster : ClusterGroup.t) : ClusterStats.t :=
  let min := fun arr => JS.Math_min arr in
  let max := fun arr => JS.Math_max arr in {|
  ClusterStats.cluster := ClusterGroup.cluster cluster;
  ClusterStats.count := ClusterGroup.count cluster;
  ClusterStats.avg_motion := avg (motion_values cluster);
  ClusterStats.min_motion := min (motion_values cluster);
  ClusterStats.max_motion := max (motion_values cluster);
  ClusterStats.avg_cut_rate := avg (cut_rate_values cluster);
  ClusterStats.min_cut_rate := min (cut_rate_values cluster);
  ClusterStats.max_cut_rate := max (cut_rate_values cluster);
  ClusterStats.avg_audio_rms_mean := avg (audio_rms_mean_values cluster);
  ClusterStats.avg_audio_rms_std := avg (audio_rms_std_values cluster);
  ClusterStats.avg_visual_density := avg (visual_density_values cluster);
  ClusterStats.min_visual_density := min (visual_density_values cluster);
  ClusterStats.max_visual_density := max (visual_density_values cluster);
  ClusterStats.videos := ClusterGroup.videos cluster
|}.

(** The local [stats], before it is sorted. *)
Definition stats (data : list VideoRecord.t) : list ClusterStats.t :=
  map statsOfGroup (JS.Object_values (clusterGroups data)).

(** [stats.sort((a, b) => a.cluster - b.cluster)] *)
Definition sortedStats (data : list VideoRecord.t) : list ClusterStats.t :=
  JS.sort
    (fun a b =>
       (Label.ToNumber (ClusterStats.cluster a)
        - Label.ToNumber (ClusterStats.cluster b))%js)
    (stats data).

Definition calculateClusterStats (data : list VideoRecord.t) (s : State) : State :=
  setClusterStats (Some (sortedStats data)) s.

End CalculateClusterStats.

(** The [complete] callback of [handleFileUpload(file, 'interpretation')],
    run on the parsed rows. *)
Definition handleFileUpload (data : list VideoRecord.t) (s : State) : State :=
  calculateClusterStats data (setInterpretationData (Some data) s).

(** ** getRadarData *)

Module RadarPoint.
Record t : Type := {
  metric : string;
  value : JS.number
}.
End RadarPoint.

Definition normalize (value : JS.number) (values : list JS.number) : JS.number :=
  let min := JS.Math_min values in
  let max := JS.Math_max values in
  if (max === min)%js then JS.Finite 50
  else (((value - min) / (max - min)) * 100%Q)%js.

Definition getRadarData (s : State) (stats : ClusterStats.t) : list RadarPoint.t :=
  match clusterStats s with
  | None => []
  | Some clusterStats =>
      let motions := map ClusterStats.avg_motion clusterStats in
      let cutRates := map ClusterStats.avg_cut_rate clusterStats in
      let densities := map ClusterStats.avg_visual_density clusterStats in
      let audioMeans := map ClusterStats.avg_audio_rms_mean clusterStats in
      let audioStds := map ClusterStats.avg_audio_rms_std clusterStats in
      [ {| RadarPoint.metric := "Motion";
           RadarPoint.value := normalize (ClusterStats.avg_motion stats) motions |};
        {| RadarPoint.metric := "Cut Rate";
           RadarPoint.value := normalize (ClusterStats.avg_cut_rate stats) cutRates |};
        {| RadarPoint.metric := "Visual Density";
           RadarPoint.value := normalize (ClusterStats.avg_visual_density stats) densities |};
        {| RadarPoint.metric := "Audio Volume";
           RadarPoint.value := normalize (ClusterStats.avg_audio_rms_mean stats) audioMeans |};
        {| RadarPoint.metric := "Audio Variance";
           RadarPoint.value := normalize (ClusterStats.avg_audio_rms_std stats) audioStds |} ]
  end.

(** ** suggestApproach *)

Inductive Confidence : Type :=
| high
| medium
| low.

Module ApproachSuggestion.
Record t : Type := {
  approach : Approach;
  confidence : Confidence;
  reason : string
}.
End ApproachSuggestion.

(** The local [metrics] object. *)
Module Metrics.
Record t : Type := {
  motion : JS.number;
  cutRate : JS.number;
  visualDensity : JS.number;
  audioVolume : JS.number;
  audioVariance : JS.number
}.
End Metrics.

(** [radarData.find(d => d.metric === name)?.value || 0] *)
Definition metricValue (radarData : list RadarPoint.t) (name : string) : JS.number :=
  match JS.find (fun d => String.eqb (RadarPoint.metric d) name) radarData with
  | Some d => JS.or_else (RadarPoint.value d) (JS.Finite 0)
  | None => JS.Finite 0
  end.

Definition metricsOf (radarData : list RadarPoint.t) : Metrics.t := {|
  Metrics.motion := metricValue radarData "Motion";
  Metrics.cutRate := metricValue radarData "Cut Rate";
  Metrics.visualDensity := metricValue radarData "Visual Density";
  Metrics.audioVolume := metricValue radarData "Audio Volume";
  Metrics.audioVariance := metricValue radarData "Audio Variance"
|}.

(** The chain of [if (...) return {...}] statements that ends
    [suggestApproach]. *)
Definition suggestFromMetrics (metrics : Metrics.t) : ApproachSuggestion.t :=
  let '(Metrics.Build_t motion cutRate visualDensity audioVolume audioVariance) :=
    metrics in
  if (motion >? 60%Q)%js && (cutRate >? 60%Q)%js then
    {| ApproachSuggestion.approach := motion_focused;
       ApproachSuggestion.confidence := high;
       ApproachSuggestion.reason :=
         "High motion + fast cuts = movement-driven content" |}
  else if (visualDensity >? 70%Q)%js then
    {| ApproachSuggestion.approach := image_conditioned;
       ApproachSuggestion.confidence := high;
       ApproachSuggestion.reason := "Strong visual composition and density" |}
  else if (visualDensity >? 50%Q)%js && (motion <? 40%Q)%js then
    {| ApproachSuggestion.approach := image_conditioned;
       ApproachSuggestion.confidence := medium;
       ApproachSuggestion.reason := "Visual-focused with minimal movement" |}
  else if (motion >? 70%Q)%js then
    {| ApproachSuggestion.approach := motion_focused;
       ApproachSuggestion.confidence := medium;
       ApproachSuggestion.reason := "Significant camera/subject movement" |}
  else if (audioVariance >? 70%Q)%js || (audioVolume >? 70%Q)%js then
    {| ApproachSuggestion.approach := text_driven;
       ApproachSuggestion.confidence := medium;
       ApproachSuggestion.reason :=
         "Distinctive audio characteristics suggest narrative/thematic content" |}
  else
    {| ApproachSuggestion.approach := text_driven;
       ApproachSuggestion.confidence := low;
       ApproachSuggestion.reason :=
         "Balanced metrics - best suited for conceptual/thematic generation" |}.

(** What [suggestApproach] returns: the bare string ['text-driven'] while
    nothing is loaded, a suggestion object otherwise. *)
Inductive Suggested : Type :=
| BareApproach (approach : Approach)
| Suggestion (suggestion : ApproachSuggestion.t).

Definition suggestApproach (s : State) (stats : ClusterStats.t) : Suggested :=
  match clusterStats s with
  | None => BareApproach text_driven
  | Some _ =>
      let radarData := getRadarData s stats in
      let metrics := metricsOf radarData in
      Suggestion (suggestFromMetrics metrics)
  end.

(** ** Approach and trend-token handlers *)

Definition handleApproachChange (cluster : Z) (approach : Approach) (s : State) : State :=
  setSelectedApproaches (fun prev => <[cluster := approach]> prev) s.

Definition handleTrendTokensChange (cluster : Z) (tokens : list string) (s : State) : State :=
  setTrendTokens (fun prev => <[cluster := tokens]> prev) s.

(** [trendTokens[cluster] || []] *)
Definition currentTokens (s : State) (cluster : Z) : list string :=
  default [] (trendTokens s !! cluster).

Definition addTrendToken (cluster : Z) (token : string) (s : State) : State :=
  if JS.is_empty (JS.trim token) then s
  else
    let current := currentTokens s cluster in
    if (3 <=? length current)%nat then s
    else if JS.includes current (JS.trim token) then s
    else setTrendTokens (fun prev => <[cluster := current ++ [JS.trim token]]> prev) s.

Definition removeTrendToken (cluster : Z) (index : nat) (s : State) : State :=
  let current := currentTokens s cluster in
  setTrendTokens
    (fun prev =>
       <[cluster := JS.filter_index (fun i => negb (i =? index)%nat) 0 current]> prev)
    s.

(** ** generateSpec *)

(** How a handler ends: it returns, or an exception escapes. *)
Inductive Completion (A : Type) : Type :=
| Returns (a : A)
| Throws (error : string).
Arguments Returns {A} a.
Arguments Throws {A} error.

Section GenerateSpec.
Import GenerationSpec.

(** The object literal bound to [spec]. *)
Definition spec (cluster : Z) (stats : ClusterStats.t) (approach : Approach)
    (tokens : list string) : GenerationSpec.t := {|
  cluster_id := cluster;
  generation_approach := approach_name approach;
  base_prompt_components := {|
    visual_style := {|
      visual_complexity :=
        if (ClusterStats.avg_visual_density stats >? 0.6%Q)%js then "high"
        else if (ClusterStats.avg_visual_density stats >? 0.3%Q)%js then "medium"
        else "low";
      detail_level :=
        if (ClusterStats.avg_visual_density stats >? 0.5%Q)%js then "detailed"
        else "simplified";
      consistency := "within_cluster_variance"
    |};
    motion_profile := {|
      camera_movement :=
        if (ClusterStats.avg_motion stats >? 0.6%Q)%js then "dynamic"
        else if (ClusterStats.avg_motion stats >? 0.3%Q)%js then "moderate"
        else "static";
      motion_intensity := JS.Math_round (ClusterStats.avg_motion stats * 10%Q)%js;
      motion_range :=
        (JS.toFixed (ClusterStats.min_motion stats) 2 ++ " - "
         ++ JS.toFixed (ClusterStats.max_motion stats) 2)%string;
      pacing :=
        if (ClusterStats.avg_cut_rate stats >? 120%Q)%js then "fast"
        else if (ClusterStats.avg_cut_rate stats >? 60%Q)%js then "medium"
        else "slow";
      cuts_per_minute := JS.Math_round (ClusterStats.avg_cut_rate stats);
      cut_rate_range :=
        (JS.integral_to_string (JS.Math_round (ClusterStats.min_cut_rate stats))
         ++ " - "
         ++ JS.integral_to_string (JS.Math_round (ClusterStats.max_cut_rate stats)))%string
    |};
    audio_profile := {|
      volume_level :=
        if (ClusterStats.avg_audio_rms_mean stats >? 0.5%Q)%js then "high"
        else if (ClusterStats.avg_audio_rms_mean stats >? 0.25%Q)%js then "medium"
        else "low";
      dynamic_range :=
        if (ClusterStats.avg_audio_rms_std stats >? 0.3%Q)%js then "high"
        else if (ClusterStats.avg_audio_rms_std stats >? 0.15%Q)%js then "medium"
        else "low";
      audio_rms_mean := JS.toFixed (ClusterStats.avg_audio_rms_mean stats) 3;
      audio_rms_std := JS.toFixed (ClusterStats.avg_audio_rms_std stats) 3
    |}
  |};
  trend_tokens := {|
    enabled := (0 <? length tokens)%nat;
    tokens := tokens;
    usage_note :=
      "Optional 1-3 word modifiers appended to base prompt to reflect current trends within cluster";
    application_strategy :=
      "Randomly select 0-2 tokens per generation for variance"
  |};
  constraints := {|
    sample_count := ClusterStats.count stats;
    variation_strategy :=
      match approach with
      | image_conditioned => "vary_seed_image"
      | motion_focused => "vary_motion_parameters"
      | text_driven => "vary_text_prompt"
      end
  |};
  generation_hints :=
    match approach with
    | image_conditioned =>
        {| note := "Use representative frames from cluster as seed images. Apply trend tokens to text conditioning." |}
    | motion_focused =>
        {| note := "Emphasize camera movement and subject motion. Trend tokens can guide motion style variations." |}
    | text_driven =>
        {| note := "Focus on thematic and conceptual elements. Trend tokens add current flavor to base themes." |}
    end
|}.

(** [clusterStats] is [null] until a table has been loaded; [.find] on
    it throws. *)
Definition generateSpec (cluster : Z) (s : State) : Completion State :=
  match clusterStats s with
  | None => Throws "TypeError: Cannot read properties of null (reading 'find')"
  | Some clusterStats =>
      match JS.find (fun s => ClusterStats.cluster s =? cluster) clusterStats with
      | None => Returns s
      | Some stats =>
          let approach := default text_driven (selectedApproaches s !! cluster) in
          let tokens := currentTokens s cluster in
          let spec := spec cluster stats approach tokens in
          Returns
            (setSelectedCluster (Some cluster)
               (setGenerationSpecs (fun prev => <[cluster := spec]> prev) s))
      end
  end.

End GenerateSpec.

(** ** The cluster cards *)

(** A rendered button: its [disabled] attribute and its [onClick]
    handler.  The browser delivers no click to a disabled button. *)
Record Button : Type := {
  disabled : bool;
  onClick : State -> Completion State
}.

Definition click (b : Button) (s : State) : Completion State :=
  if disabled b then Returns s else onClick b s.

(** The generate button of the card of [stats]. *)
Definition generateButton (s : State) (stats : ClusterStats.t) : Button := {|
  disabled :=
    match selectedApproaches s !! ClusterStats.cluster stats with
    | Some _ => false
    | None => true
    end;
  onClick := generateSpec (ClusterStats.cluster stats)
|}.

(** The generate buttons on the page: one per entry of [clusterStats],
    none while [clusterStats] is [null]. *)
Definition generateButtons (s : State) : list (Z * Button) :=
  match clusterStats s with
  | None => []
  | Some clusterStats =>
      map (fun stats => (ClusterStats.cluster stats, generateButton s stats)) clusterStats
  end.

(** The add and remove controls of the trend-token editor. *)
Inductive TokenOp : Type :=
| AddToken (cluster : Z) (token : string)
| RemoveToken (cluster : Z) (index : nat).

Definition applyTokenOp (s : State) (op : TokenOp) : State :=
  match op with
  | AddToken cluster token => addTrendToken cluster token s
  | RemoveToken cluster index => removeTrendToken cluster index s
  end.

Definition applyTokenOps (ops : list TokenOp) (s : State) : State :=
  fold_left applyTokenOp ops s.

(** ** Vocabulary of the properties *)

(** The five metrics, in the order of the radar chart. *)
Inductive Metric : Type :=
| Motion
| CutRate
| VisualDensity
| AudioVolume
| AudioVariance.

(** The label of a metric on the radar chart. *)
Definition metricName (m : Metric) : string :=
  match m with
  | Motion => "Motion"
  | CutRate => "Cut Rate"
  | VisualDensity => "Visual Density"
  | AudioVolume => "Audio Volume"
  | AudioVariance => "Audio Variance"
  end.

(** The cell of a row that feeds a metric. *)
Definition cell (m : Metric) (row : VideoRecord.t) : option Q :=
  match m with
  | Motion => VideoRecord.motion_mean row
  | CutRate => VideoRecord.cut_rate_per_min row
  | VisualDensity => VideoRecord.visual_density row
  | AudioVolume => VideoRecord.audio_rms_mean row
  | AudioVariance => VideoRecord.audio_rms_std row
  end.

(** The value list a group keeps for a metric. *)
Definition values (m : Metric) (g : ClusterGroup.t) : list JS.number :=
  match m with
  | Motion => ClusterGroup.motion_values g
  | CutRate => ClusterGroup.cut_rate_values g
  | VisualDensity => ClusterGroup.visual_density_values g
  | AudioVolume => ClusterGroup.audio_rms_mean_values g
  | AudioVariance => ClusterGroup.audio_rms_std_values g
  end.

(** The [avg_*] field of a metric. *)
Definition average (m : Metric) (e : ClusterStats.t) : JS.number :=
  match m with
  | Motion => ClusterStats.avg_motion e
  | CutRate => ClusterStats.avg_cut_rate e
  | VisualDensity => ClusterStats.avg_visual_density e
  | AudioVolume => ClusterStats.avg_audio_rms_mean e
  | AudioVariance => ClusterStats.avg_audio_rms_std e
  end.

(** The [min_*] field of a metric; the audio metrics have none. *)
Definition minimum (m : Metric) (e : ClusterStats.t) : option JS.number :=
  match m with
  | Motion => Some (ClusterStats.min_motion e)
  | CutRate => Some (ClusterStats.min_cut_rate e)
  | VisualDensity => Some (ClusterStats.min_visual_density e)
  | AudioVolume | AudioVariance => None
  end.

(** The [max_*] field of a metric; the audio metrics have none. *)
Definition maximum (m : Metric) (e : ClusterStats.t) : option JS.number :=
  match m with
  | Motion => Some (ClusterStats.max_motion e)
  | CutRate => Some (ClusterStats.max_cut_rate e)
  | VisualDensity => Some (ClusterStats.max_visual_density e)
  | AudioVolume | AudioVariance => None
  end.

(** The rows of a table that carry a given cluster id, in table order. *)
Definition rowsOf (c : Z) (data : list VideoRecord.t) : list VideoRecord.t :=
  List.filter (fun row => VideoRecord.cluster row =? c) data.

(** The group object after the given rows of cluster [c] were pushed. *)
Definition groupOf (c : Z) (rows : list VideoRecord.t) : ClusterGroup.t :=
  fold_left (fun g row => pushRow row g) rows (newGroup c).

(** What [clusterGroups[c]] holds once the rows [rows] of cluster [c] were
    visited: nothing when there is none. *)
Definition groupFor (c : Z) (rows : list VideoRecord.t) : option ClusterGroup.t :=
  match rows with
  | [] => None
  | _ => Some (groupOf c rows)
  end.

(** [a] is the finite number [q]. *)
Definition isNumber (a : JS.number) (q : Q) : Prop :=
  match a with
  | JS.Finite x => x == q
  | _ => False
  end.

Definition isFinite (a : JS.number) : bool :=
  match a with
  | JS.Finite _ => true
  | _ => false
  end.

(** The rational a finite number stands for. *)
Definition realOf (a : JS.number) : Q :=
  match a with
  | JS.Finite x => x
  | _ => 0
  end.

(** Every average of the entry is a finite number. *)
Definition finiteStats (e : ClusterStats.t) : Prop :=
  forall m, isFinite (average m e) = true.


(** The value plotted for a metric, read off the radar data by label. *)
Definition radarValue (m : Metric) (radarData : list RadarPoint.t) : option JS.number :=
  option_map RadarPoint.value
    (JS.find (fun d => String.eqb (RadarPoint.metric d) (metricName m)) radarData).

(** The string is empty or starts with a code unit that is not white
    space. *)
Definition startsClean (s : string) : Prop :=
  match s with
  | EmptyString => True
  | String c _ => JS.is_space c = false
  end.

(** The state of one token list that the editor maintains: at most three
    entries, pairwise different, each already trimmed. *)
Definition tidy (l : list string) : Prop :=
  (length l <= 3)%nat /\ List.NoDup l /\ Forall (fun t => JS.trim t = t) l.

(** The rule table of the approach classifier as the specification lists
    it: five guarded rules, tried in order, and a default. *)
Definition Rule : Type := (Metrics.t -> bool) * ApproachSuggestion.t.

Definition suggestion (a : Approach) (c : Confidence) (r : string) : ApproachSuggestion.t :=
  {| ApproachSuggestion.approach := a;
     ApproachSuggestion.confidence := c;
     ApproachSuggestion.reason := r |}.

Definition rule1 : Rule :=
  (fun m => (Metrics.motion m >? 60%Q)%js && (Metrics.cutRate m >? 60%Q)%js,
   suggestion motion_focused high "High motion + fast cuts = movement-driven content").

Definition rule2 : Rule :=
  (fun m => (Metrics.visualDensity m >? 70%Q)%js,
   suggestion image_conditioned high "Strong visual composition and density").

Definition rule3 : Rule :=
  (fun m => (Metrics.visualDensity m >? 50%Q)%js && (Metrics.motion m <? 40%Q)%js,
   suggestion image_conditioned medium "Visual-focused with minimal movement").

Definition rule4 : Rule :=
  (fun m => (Metrics.motion m >? 70%Q)%js,
   suggestion motion_focused medium "Significant camera/subject movement").

Definition rule5 : Rule :=
  (fun m => (Metrics.audioVariance m >? 70%Q)%js || (Metrics.audioVolume m >? 70%Q)%js,
   suggestion text_driven medium
     "Distinctive audio characteristics suggest narrative/thematic content").

Definition rule6 : ApproachSuggestion.t :=
  suggestion text_driven low
    "Balanced metrics - best suited for conceptual/thematic generation".

Definition rules : list Rule := [rule1; rule2; rule3; rule4; rule5].

(** The suggestions of the rules whose guard holds, in rule order. *)
Definition matching (m : Metrics.t) : list ApproachSuggestion.t :=
  map snd (List.filter (fun r => fst r m) rules).

(** The first matching rule decides; the default applies when none does. *)
Definition firstMatch (m : Metrics.t) : ApproachSuggestion.t :=
  hd rule6 (matching m).

(** ** The worked example: one cluster of three videos *)

Definition exampleRow (motion cut_rate : Q) : VideoRecord.t := {|
  VideoRecord.cluster := 1;
  VideoRecord.motion_mean := Some motion;
  VideoRecord.cut_rate_per_min := Some cut_rate;
  VideoRecord.audio_rms_mean := Some 0.2%Q;
  VideoRecord.audio_rms_std := Some 0.1%Q;
  VideoRecord.visual_density := Some 0.4%Q
|}.

Definition exampleData : list VideoRecord.t :=
  [exampleRow 0.1 20; exampleRow 0.3 40; exampleRow 0.5 60]%Q.

(** The table is loaded and an approach is picked for cluster 1. *)
Definition exampleState (approach : Approach) : State :=
  handleApproachChange 1 approach (handleFileUpload exampleData initialState).

(** The camera movement and the pacing of the spec stored for a cluster. *)
Definition storedMotionProfile (c : Z) (r : Completion State)
    : option (string * string) :=
  match r with
  | Returns s =>
      match generationSpecs s !! c with
      | Some g =>
          let p := GenerationSpec.motion_profile (GenerationSpec.base_prompt_components g) in
          Some (GenerationSpec.camera_movement p, GenerationSpec.pacing p)
      | None => None
      end
  | Throws _ => None
  end.

(** The entry the aggregator builds for the example cluster. *)
Definition exampleEntry : ClusterStats.t :=
  statsOfGroup (groupOf 1 exampleData).

(** ** A second example: two clusters, one of them without metrics *)

Definition row (cluster : Z) (motion cut_rate : option Q) : VideoRecord.t := {|
  VideoRecord.cluster := cluster;
  VideoRecord.motion_mean := motion;
  VideoRecord.cut_rate_per_min := cut_rate;
  VideoRecord.audio_rms_mean := None;
  VideoRecord.audio_rms_std := None;
  VideoRecord.visual_density := None
|}.

(** Clusters 2 and -1 interleaved; the rows of cluster -1 carry no metric. *)
Definition twoClusterData : list VideoRecord.t :=
  [ row 2 (Some 0.8%Q) (Some 90%Q);
    row (-1) None None;
    row 2 (Some 0.4%Q) (Some 30%Q);
    row (-1) None None ].

Definition twoClusterState : State := handleFileUpload twoClusterData initialState.

(** ** Two clusters whose motion averages are far apart *)




(** ** A third example: labels too large to be numbers *)

(** Three clusters of one row each.  The parser leaves the first two
    labels as strings; the third is a number, but not an array index. *)
Definition largeLabelData : list VideoRecord.t :=
  [ row 9007199254740993 (Some 0.5%Q) (Some 50%Q);
    row 9007199254740992 (Some 0.5%Q) (Some 50%Q);
    row 4294967296 (Some 0.5%Q) (Some 50%Q) ].

Definition noiseEntry : ClusterStats.t :=
  statsOfGroup (groupOf (-1) (rowsOf (-1) twoClusterData)).

(** A session of the trend-token editor of cluster 1. *)
Definition exampleTokenOps : list TokenOp :=
  [ AddToken 1 "  vintage filter ";
    AddToken 1 "vintage filter";
    AddToken 1 "   ";
    AddToken 1 "upbeat";
    AddToken 1 "minimalist";
    AddToken 1 "retro";
    RemoveToken 1 0;
    AddToken 2 "upbeat" ].

(** The same averages and threshold tests in binary64, written as the
    source evaluates them: [reduce] starts from [0] and adds left to right. *)
Module Binary64.
Local Open Scope float_scope.

(** [arr.length]: a small count is exact in binary64 *)
Fixpoint length_of {A} (arr : list A) : float :=
  match arr with
  | [] => 0
  | _ :: arr' => length_of arr' + 1
  end.

Definition avg (arr : list float) : float :=
  fold_left (fun a b => a + b) arr 0 / length_of arr.

Definition avg_motion : float := avg [0.1; 0.3; 0.5].

Definition avg_cut_rate : float := avg [20; 40; 60].

(** [a > b] *)
Definition gtb (a b : float) : bool := PrimFloat.ltb b a.

Definition camera_movement (avg_motion : float) : string :=
  if gtb avg_motion 0.6 then "dynamic"
  else if gtb avg_motion 0.3 then "moderate"
  else "static".

Definition pacing (avg_cut_rate : float) : string :=
  if gtb avg_cut_rate 120 then "fast"
  else if gtb avg_cut_rate 60 then "medium"
  else "slow".

(** The body of [normalize], given the two bounds. *)
Definition normalize (value min max : float) : float :=
  if PrimFloat.eqb max min then 50 else ((value - min) / (max - min)) * 100.

End Binary64.

(** ** getClusterCharacteristics *)

(** [arr.join(separator)] *)
Fixpoint Array_join (separator : string) (arr : list string) : string :=
  match arr with
  | [] => ""
  | [x] => x
  | x :: arr' => (x ++ separator ++ Array_join separator arr')%string
  end.

(** The local array [characteristics] when the function returns: one tag
    for motion, one for pacing, at most one for density and for audio. *)
Definition characteristics (stats : ClusterStats.t) : list string :=
  let characteristics := [] in
  let characteristics :=
    characteristics ++
    [ if (ClusterStats.avg_motion stats >? 0.5%Q)%js then "High Motion"
      else if (ClusterStats.avg_motion stats <? 0.2%Q)%js then "Low Motion"
      else "Medium Motion" ]%string in
  let characteristics :=
    characteristics ++
    [ if (ClusterStats.avg_cut_rate stats >? 120%Q)%js then "Fast Cuts"
      else if (ClusterStats.avg_cut_rate stats <? 30%Q)%js then "Slow Cuts"
      else "Medium Pacing" ]%string in
  let characteristics :=
    characteristics ++
    (if (ClusterStats.avg_visual_density stats >? 0.6%Q)%js then ["Visually Dense"]
     else if (ClusterStats.avg_visual_density stats <? 0.3%Q)%js then ["Visually Simple"]
     else [])%string in
  let characteristics :=
    characteristics ++
    (if (ClusterStats.avg_audio_rms_mean stats >? 0.5%Q)%js then ["Loud Audio"]
     else if (ClusterStats.avg_audio_rms_mean stats <? 0.2%Q)%js then ["Quiet Audio"]
     else [])%string in
  characteristics.

(** [stats] is [None] for a [null] or [undefined] argument.  The separator
    literal of the source holds code units beyond 8 bits, so it is an
    argument here. *)
Definition getClusterCharacteristics (separator : string)
    (stats : option ClusterStats.t) : string :=
  match stats with
  | None => ""
  | Some stats => Array_join separator (characteristics stats)
  end.

(** ** getColor *)

Definition colors : list string :=
  [ "#3b82f6"; "#10b981"; "#f59e0b"; "#ef4444";
    "#8b5cf6"; "#ec4899"; "#14b8a6"; "#f97316" ]%string.

(** [colors[index % colors.length]]; [None] stands for [undefined].  The
    index is the position of a card. *)
Definition getColor (index : nat) : option string :=
  nth_error colors (index mod length colors).

(** ** The page as a transition system *)

(** What the user can do on the page.  The two ways of submitting the
    token input (the Enter key and the plus button) call the same handler
    with the text of the input. *)
Inductive Event : Type :=
| UploadInterpretation (data : list VideoRecord.t)
| ClickApproach (cluster : Z) (approach : Approach)
| SubmitToken (cluster : Z) (text : string)
| ClickRemoveToken (cluster : Z) (index : nat)
| ClickGenerate (cluster : Z).

(** A card is rendered for every entry of [clusterStats], none while it is
    [null]. *)
Definition cardRendered (s : State) (cluster : Z) : bool :=
  match clusterStats s with
  | None => false
  | Some clusterStats =>
      existsb (fun stats => ClusterStats.cluster stats =? cluster) clusterStats
  end.

(** The control behind an event is on the page.  The file inputs always
    are; the others sit on the card of their cluster; a token chip and its
    remove button exist for every index of the token list. *)
Definition available (s : State) (e : Event) : bool :=
  match e with
  | UploadInterpretation _ => true
  | ClickApproach cluster _ => cardRendered s cluster
  | SubmitToken cluster _ => cardRendered s cluster
  | ClickRemoveToken cluster index =>
      cardRendered s cluster && (index <? length (currentTokens s cluster))%nat
  | ClickGenerate cluster => cardRendered s cluster
  end.

(** The handler an event runs. *)
Definition handle (e : Event) (s : State) : Completion State :=
  match e with
  | UploadInterpretation data => Returns (handleFileUpload data s)
  | ClickApproach cluster approach => Returns (handleApproachChange cluster approach s)
  | SubmitToken cluster text => Returns (addTrendToken cluster text s)
  | ClickRemoveToken cluster index => Returns (removeTrendToken cluster index s)
  | ClickGenerate cluster =>
      match JS.find (fun cb => fst cb =? cluster) (generateButtons s) with
      | Some (_, b) => click b s
      | None => Returns s
      end
  end.

(** The states the page can be in: the first render, and whatever a
    handler returns for an event whose control is on the page. *)
Inductive reachable : State -> Prop :=
| reachable_initial : reachable initialState
| reachable_step (s s' : State) (e : Event) :
    reachable s -> available s e = true -> handle e s = Returns s' ->
    reachable s'.

(** Runs a list of events from a state; an event whose control is not on
    the page cannot happen and is skipped. *)
Fixpoint run (events : list Event) (s : State) : Completion State :=
  match events with
  | [] => Returns s
  | e :: events' =>
      if available s e then
        match handle e s with
        | Returns s' => run events' s'
        | Throws error => Throws error
        end
      else run events' s
  end.

(** ** Vocabulary of the further properties *)

(** A token list as the editor keeps it: [tidy], and no entry empty. *)
Definition wellFormedTokens (l : list string) : Prop :=
  tidy l /\ Forall (fun t => t <> EmptyString) l.

(** A stored spec is in order for its key: it was built for that key from
    an entry of an uploaded table and a well-formed token list. *)
Definition specInOrder (c : Z) (g : GenerationSpec.t) : Prop :=
  exists data stats a tokens,
    In stats (sortedStats data) /\ ClusterStats.cluster stats = c /\
    wellFormedTokens tokens /\ g = spec c stats a tokens.

(** [clusterStats] is [null] before the first upload and the aggregate of
    the last uploaded table afterwards. *)
Definition statsInOrder (s : State) : Prop :=
  match clusterStats s with
  | None => interpretationData s = None
  | Some cs => exists data, interpretationData s = Some data /\ cs = sortedStats data
  end.

(** The invariant of the page. *)
Definition pageInvariant (s : State) : Prop :=
  statsInOrder s /\
  (forall c, wellFormedTokens (currentTokens s c)) /\
  (forall c g, generationSpecs s !! c = Some g ->
     specInOrder c g /\ is_Some (selectedApproaches s !! c)) /\
  (forall c, selectedCluster s = Some c -> is_Some (generationSpecs s !! c)).

(** The list without its element at position [i]. *)
Definition without {A} (i : nat) (l : list A) : list A :=
  firstn i l ++ skipn (S i) l.

(** The cluster whose token list an editor operation works on. *)
Definition opCluster (op : TokenOp) : Z :=
  match op with
  | AddToken cluster _ => cluster
  | RemoveToken cluster _ => cluster
  end.

(** The sum of the [count] fields. *)
Definition totalCount (l : list ClusterStats.t) : nat :=
  list_sum (map ClusterStats.count l).

(** The cluster id and the row count of every entry, in order. *)
Definition clusterSizes (l : list ClusterStats.t) : list (Z * nat) :=
  map (fun e => (ClusterStats.cluster e, ClusterStats.count e)) l.

(** The sum of the [count] fields of the groups of [clusterGroups]. *)
Definition groupTotal (o : JS.object ClusterGroup.t) : nat :=
  list_sum (map (fun e => ClusterGroup.count (snd e)) o).

(** A session on the page: load the two-cluster table, edit tokens,
    choose approaches and build. *)
Definition exampleSession : list Event :=
  [ ClickGenerate 2;
    UploadInterpretation twoClusterData;
    ClickGenerate 2;
    SubmitToken 2 " upbeat ";
    ClickApproach 2 motion_focused;
    ClickGenerate 2;
    ClickRemoveToken 2 0;
    ClickGenerate 7;
    UploadInterpretation exampleData;
    ClickGenerate 2 ].

(** The entry of cluster 2 of the two-cluster table. *)
Definition busyEntry : ClusterStats.t :=
  statsOfGroup (groupOf 2 (rowsOf 2 twoClusterData)).

(** The state the example session ends in. *)
Definition exampleSessionState : State :=
  match run exampleSession initialState with
  | Returns s => s
  | Throws _ => initialState
  end.

(** A session that builds a spec for each cluster of the two-cluster
    table and then changes the approach of cluster -1. *)
Definition twoSpecsSession : list Event :=
  [ UploadInterpretation twoClusterData;
    SubmitToken 2 "upbeat";
    ClickApproach 2 motion_focused;
    ClickGenerate 2;
    ClickApproach (-1) text_driven;
    ClickGenerate (-1);
    ClickApproach (-1) image_conditioned ].

(** The state that session ends in: the spec store holds a spec for
    cluster 2 and one for cluster -1. *)
Definition twoSpecsState : State :=
  match run twoSpecsSession initialState with
  | Returns s => s
  | Throws _ => initialState
  end.

(** * Properties *)

(** ** Objects and property order *)

Lemma get_set {V} (o : JS.object V) (k k' : Z) (v : V) :
  JS.get (JS.set o k v) k' = if k' =? k then Some v else JS.get o k'.
Proof.
  induction o as [|[k0 v0] o IH]; simpl.
  - destruct (k' =? k); reflexivity.
  - destruct (k =? k0) eqn:E; simpl.
    + apply Z.eqb_eq in E; subst k0. destruct (k' =? k); reflexivity.
    + rewrite IH. destruct (k' =? k0) eqn:E0; [|reflexivity].
      apply Z.eqb_eq in E0; subst k0.
      rewrite Z.eqb_sym in E. rewrite E. reflexivity.
Qed.

Lemma get_update {V} (o : JS.object V) (k k' : Z) (f : V -> V) :
  JS.get (JS.update o k f) k' =
  if k' =? k then option_map f (JS.get o k) else JS.get o k'.
Proof.
  induction o as [|[k0 v0] o IH]; simpl.
  - destruct (k' =? k); reflexivity.
  - destruct (k =? k0) eqn:E; simpl.
    + apply Z.eqb_eq in E; subst k0. destruct (k' =? k); reflexivity.
    + rewrite IH. destruct (k' =? k0) eqn:E0; [|reflexivity].
      apply Z.eqb_eq in E0; subst k0.
      rewrite Z.eqb_sym in E. rewrite E. reflexivity.
Qed.

Lemma get_None_keys {V} (o : JS.object V) (k : Z) :
  JS.get o k = None <-> ~ In k (map fst o).
Proof.
  induction o as [|[k0 v0] o IH]; simpl.
  - tauto.
  - destruct (k =? k0) eqn:E.
    + apply Z.eqb_eq in E. split; [discriminate | intros H; exfalso; apply H; auto].
    + apply Z.eqb_neq in E. rewrite IH. intuition congruence.
Qed.

Lemma keys_set_fresh {V} (o : JS.object V) (k : Z) (v : V) :
  JS.get o k = None -> map fst (JS.set o k v) = map fst o ++ [k].
Proof.
  induction o as [|[k0 v0] o IH]; simpl; [reflexivity|].
  destruct (k =? k0); [discriminate|].
  intros H. simpl. rewrite IH by assumption. reflexivity.
Qed.

Lemma keys_update {V} (o : JS.object V) (k : Z) (f : V -> V) :
  map fst (JS.update o k f) = map fst o.
Proof.
  induction o as [|[k0 v0] o IH]; simpl; [reflexivity|].
  destruct (k =? k0); simpl; [reflexivity | now rewrite IH].
Qed.

Lemma get_In {V} (o : JS.object V) (k : Z) (v : V) :
  JS.get o k = Some v -> In (k, v) o.
Proof.
  induction o as [|[k0 v0] o IH]; simpl; [discriminate|].
  destruct (k =? k0) eqn:E.
  - apply Z.eqb_eq in E. intros [= ->]. left. now subst.
  - auto.
Qed.

Lemma In_get {V} (o : JS.object V) (k : Z) (v : V) :
  List.NoDup (map fst o) -> In (k, v) o -> JS.get o k = Some v.
Proof.
  induction o as [|[k0 v0] o IH]; simpl; [tauto|].
  intros Hnd [H|H].
  - injection H as -> ->. now rewrite Z.eqb_refl.
  - inversion Hnd as [|? ? Hnotin Hnd']; subst.
    destruct (k =? k0) eqn:E.
    + apply Z.eqb_eq in E; subst k0. exfalso. apply Hnotin.
      apply (in_map fst) in H. exact H.
    + auto.
Qed.

(** ** Numbers: range and order *)

Local Open Scope Q_scope.

Lemma Qltb_lt (a b : Q) : JS.Qltb a b = true <-> a < b.
Proof.
  unfold JS.Qltb. rewrite negb_true_iff, <- not_true_iff_false, Qle_bool_iff.
  split; [apply Qnot_le_lt | apply Qlt_not_le].
Qed.

Lemma Qltb_ge (a b : Q) : JS.Qltb a b = false <-> b <= a.
Proof.
  unfold JS.Qltb. rewrite negb_false_iff. apply Qle_bool_iff.
Qed.

Lemma overflow_threshold_large : 100 < JS.overflow_threshold.
Proof. vm_compute. reflexivity. Qed.

Opaque JS.overflow_threshold.

(** The three outcomes of a finite operation. *)
Lemma overflow_cases (q : Q) :
  (JS.overflow_threshold <= q /\ JS.overflow q = JS.Infinity) \/
  (q <= - JS.overflow_threshold /\ JS.overflow q = JS.NegInfinity) \/
  (- JS.overflow_threshold < q < JS.overflow_threshold /\ JS.overflow q = JS.Finite q).
Proof.
  unfold JS.overflow.
  destruct (Qle_bool JS.overflow_threshold q) eqn:E1.
  - left. split; [now apply Qle_bool_iff | reflexivity].
  - destruct (Qle_bool q (- JS.overflow_threshold)) eqn:E2.
    + right; left. split; [now apply Qle_bool_iff | reflexivity].
    + right; right. split; [|reflexivity]. split; apply Qnot_le_lt; intros H;
        apply Qle_bool_iff in H; congruence.
Qed.

Lemma overflow_in_range (q : Q) :
  - JS.overflow_threshold < q < JS.overflow_threshold -> JS.overflow q = JS.Finite q.
Proof.
  intros [Hlo Hhi].
  destruct (overflow_cases q) as [[H _]|[[H _]|[_ H]]]; [lra | lra | exact H].
Qed.


Lemma overflow_number (q : Q) : JS.overflow q <> JS.NaN.
Proof.
  destruct (overflow_cases q) as [[_ H]|[[_ H]|[_ H]]]; rewrite H; discriminate.
Qed.

(** Going out of range keeps the sign. *)
Lemma overflow_positive (q : Q) : (JS.overflow q >? 0%Q)%js = JS.Qltb 0 q.
Proof.
  pose proof overflow_threshold_large as T.
  destruct (overflow_cases q) as [[Hq H]|[[Hq H]|[Hq H]]]; rewrite H; simpl;
    [| |reflexivity].
  - symmetry. apply Qltb_lt. lra.
  - symmetry. apply Qltb_ge. lra.
Qed.

(** [a - b > 0] tells whether [a] is the larger number. *)
Lemma sub_positive (a b : JS.number) :
  a <> JS.NaN -> b <> JS.NaN -> ((a - b) >? 0%Q)%js = (b <? a)%js.
Proof.
  intros Ha Hb. destruct a as [x| | |], b as [y| | |]; try congruence;
    try reflexivity.
  unfold JS.sub, JS.neg, JS.add. rewrite overflow_positive. simpl.
  destruct (JS.Qltb y x) eqn:E.
  - apply Qltb_lt in E. apply Qltb_lt. lra.
  - apply Qltb_ge in E. apply Qltb_ge. lra.
Qed.

Lemma ltb_asymmetric (a b : JS.number) :
  (a <? b)%js = true -> (b <? a)%js = false.
Proof.
  destruct a as [x| | |], b as [y| | |]; simpl; try congruence.
  rewrite Qltb_lt, Qltb_ge. apply Qlt_le_weak.
Qed.

(** On numbers other than [NaN], "not greater" is transitive. *)
Lemma not_greater_transitive (a b c : JS.number) :
  b <> JS.NaN ->
  (b <? a)%js = false -> (c <? b)%js = false -> (c <? a)%js = false.
Proof.
  intros Hb. destruct a as [x| | |], b as [y| | |], c as [z| | |]; simpl;
    try congruence.
  rewrite !Qltb_ge. intros H1 H2. now apply Qle_trans with y.
Qed.

Local Open Scope Z_scope.

(** ** Ascending order of an integer key *)

Section SortByKey.
Context {A : Type} (key : A -> Z).

Lemma insert_by_perm (x : A) (l : list A) :
  Permutation (JS.insert_by key x l) (x :: l).
Proof.
  induction l as [|y l IH]; simpl; [reflexivity|].
  destruct (key y <? key x); [|reflexivity].
  rewrite IH. apply perm_swap.
Qed.

Lemma ascending_by_perm (l : list A) :
  Permutation (JS.ascending_by key l) l.
Proof.
  induction l as [|x l IH]; simpl; [reflexivity|].
  rewrite insert_by_perm. now apply perm_skip.
Qed.

Lemma sorted_nodup_strict (l : list A) :
  StronglySorted (fun a b => key a <= key b) l ->
  List.NoDup (map key l) ->
  StronglySorted (fun a b => key a < key b) l.
Proof.
  induction 1 as [|y l Hs IH Hy]; simpl; intros Hnd; [constructor|].
  inversion Hnd as [|? ? Hnotin Hnd']; subst.
  constructor; [auto|].
  rewrite List.Forall_forall in Hy |- *. intros z Hz.
  specialize (Hy z Hz).
  assert (key y <> key z) by (intros Heq; apply Hnotin; rewrite Heq; now apply List.in_map).
  lia.
Qed.

Lemma sorted_keys (l : list A) :
  StronglySorted (fun a b => key a < key b) l -> StronglySorted Z.lt (map key l).
Proof.
  induction 1 as [|x l Hs IH Hx]; simpl; constructor; [exact IH|].
  rewrite List.Forall_forall in Hx |- *. intros c Hc.
  apply List.in_map_iff in Hc. destruct Hc as (y & <- & Hy). now apply Hx.
Qed.

End SortByKey.

(** ** [sort] with a comparator that subtracts two numbers *)

Lemma sort_insert_perm {A} (cmp : A -> A -> JS.number) (x : A) (l : list A) :
  Permutation (JS.sort_insert cmp x l) (x :: l).
Proof.
  induction l as [|y l IH]; cbn [JS.sort_insert]; [reflexivity|].
  destruct (cmp x y >? 0%Q)%js; [|reflexivity].
  rewrite IH. apply perm_swap.
Qed.

Lemma sort_perm {A} (cmp : A -> A -> JS.number) (l : list A) :
  Permutation (JS.sort cmp l) l.
Proof.
  induction l as [|x l IH]; cbn [JS.sort fold_right]; [reflexivity|].
  fold (JS.sort cmp l). rewrite sort_insert_perm. now apply perm_skip.
Qed.

Section SortByNumber.
Context {A : Type} (key : A -> JS.number).
Hypothesis key_number : forall a, key a <> JS.NaN.

Lemma sort_insert_sorted (x : A) (l : list A) :
  StronglySorted (fun a b => (key b <? key a)%js = false) l ->
  StronglySorted (fun a b => (key b <? key a)%js = false)
    (JS.sort_insert (fun a b => (key a - key b)%js) x l).
Proof.
  induction 1 as [|y l Hs IH Hy]; cbn [JS.sort_insert].
  - constructor; [constructor | constructor].
  - rewrite sub_positive by apply key_number.
    destruct (key y <? key x)%js eqn:E.
    + constructor; [exact IH|].
      rewrite (sort_insert_perm _ x l). constructor; [|exact Hy].
      now apply ltb_asymmetric.
    + constructor.
      * constructor; assumption.
      * constructor; [exact E|].
        eapply List.Forall_impl; [|exact Hy]. simpl. intros z Hz.
        apply (not_greater_transitive _ (key y)); [apply key_number | exact E | exact Hz].
Qed.

Lemma sort_sorted (l : list A) :
  StronglySorted (fun a b => (key b <? key a)%js = false)
    (JS.sort (fun a b => (key a - key b)%js) l).
Proof.
  induction l as [|x l IH]; cbn [JS.sort fold_right]; [constructor|].
  now apply sort_insert_sorted.
Qed.

End SortByNumber.

Lemma StronglySorted_weaken {A} (R R' : A -> A -> Prop) (l : list A) :
  (forall a b, In a l -> In b l -> R a b -> R' a b) ->
  StronglySorted R l -> StronglySorted R' l.
Proof.
  intros Hw Hs. induction Hs as [|x l Hs IH Hx] in Hw |- *; [constructor|].
  constructor.
  - apply IH. intros a b Ha Hb. apply Hw; now right.
  - rewrite List.Forall_forall in Hx |- *. intros y Hy.
    apply Hw; [now left | now right | now apply Hx].
Qed.

Lemma filter_split_perm {A} (p : A -> bool) (l : list A) :
  Permutation (List.filter p l ++ List.filter (fun x => negb (p x)) l) l.
Proof.
  induction l as [|x l IH]; simpl; [reflexivity|].
  destruct (p x); simpl.
  - now apply perm_skip.
  - rewrite <- Permutation_middle. now apply perm_skip.
Qed.

Lemma own_entries_perm {V} (o : JS.object V) : Permutation (JS.own_entries o) o.
Proof.
  unfold JS.own_entries.
  rewrite (ascending_by_perm fst). apply filter_split_perm.
Qed.

(** ** The groups built by the aggregator *)

Lemma rowsOf_app (c : Z) (d1 d2 : list VideoRecord.t) :
  rowsOf c (d1 ++ d2) = rowsOf c d1 ++ rowsOf c d2.
Proof. apply List.filter_app. Qed.

Lemma rowsOf_In (c : Z) (data : list VideoRecord.t) (row : VideoRecord.t) :
  In row (rowsOf c data) <-> In row data /\ VideoRecord.cluster row = c.
Proof. unfold rowsOf. rewrite List.filter_In, Z.eqb_eq. tauto. Qed.

Lemma groupOf_snoc (c : Z) (rows : list VideoRecord.t) (row : VideoRecord.t) :
  groupOf c (rows ++ [row]) = pushRow row (groupOf c rows).
Proof. unfold groupOf. now rewrite fold_left_app. Qed.

Lemma groupFor_snoc (c : Z) (rows : list VideoRecord.t) (row : VideoRecord.t) :
  groupFor c (rows ++ [row]) = Some (groupOf c (rows ++ [row])).
Proof. destruct rows; reflexivity. Qed.

Lemma pushed_fields (rows : list VideoRecord.t) (g : ClusterGroup.t) :
  let g' := fold_left (fun g row => pushRow row g) rows g in
  ClusterGroup.cluster g' = ClusterGroup.cluster g /\
  ClusterGroup.count g' = (ClusterGroup.count g + length rows)%nat /\
  ClusterGroup.videos g' = ClusterGroup.videos g ++ rows /\
  forall m, values m g' = values m g ++ map (fun row => (cell m row || 0%Q)%js) rows.
Proof.
  revert g. induction rows as [|row rows IH]; intros g; simpl.
  - repeat split; intros; rewrite ?app_nil_r; auto with arith.
  - destruct (IH (pushRow row g)) as (Hc & Hn & Hv & Hm). simpl in *.
    rewrite Hc, Hn, Hv. repeat split.
    + lia.
    + now rewrite <- app_assoc.
    + intros m. rewrite Hm. destruct m; simpl; now rewrite <- app_assoc.
Qed.

Lemma groupOf_fields (c : Z) (rows : list VideoRecord.t) :
  ClusterGroup.cluster (groupOf c rows) = c /\
  ClusterGroup.count (groupOf c rows) = length rows /\
  ClusterGroup.videos (groupOf c rows) = rows /\
  forall m, values m (groupOf c rows) = map (fun row => (cell m row || 0%Q)%js) rows.
Proof.
  destruct (pushed_fields rows (newGroup c)) as (Hc & Hn & Hv & Hm).
  unfold groupOf. repeat split; auto.
  intros m. rewrite Hm. now destruct m.
Qed.

Lemma visitRow_get (acc : JS.object ClusterGroup.t) (done : list VideoRecord.t)
    (row : VideoRecord.t) :
  (forall c, JS.get acc c = groupFor c (rowsOf c done)) ->
  forall c, JS.get (visitRow acc row) c = groupFor c (rowsOf c (done ++ [row])).
Proof.
  intros Hacc c. unfold visitRow. rewrite get_update, rowsOf_app.
  unfold rowsOf at 2. simpl. rewrite (Z.eqb_sym c).
  destruct (VideoRecord.cluster row =? c) eqn:E.
  - apply Z.eqb_eq in E. subst c. rewrite groupFor_snoc, groupOf_snoc.
    pose proof (Hacc (VideoRecord.cluster row)) as H.
    destruct (JS.get acc (VideoRecord.cluster row)) as [g|] eqn:G.
    + rewrite G. simpl. f_equal. f_equal.
      destruct (rowsOf (VideoRecord.cluster row) done); simpl in H; congruence.
    + rewrite get_set, Z.eqb_refl. simpl. f_equal. f_equal.
      destruct (rowsOf (VideoRecord.cluster row) done); simpl in H; [reflexivity|discriminate].
  - rewrite app_nil_r, <- Hacc.
    destruct (JS.get acc (VideoRecord.cluster row)); [reflexivity|].
    rewrite get_set, (Z.eqb_sym c), E. reflexivity.
Qed.

Lemma visitRow_keys (acc : JS.object ClusterGroup.t) (row : VideoRecord.t) :
  List.NoDup (map fst acc) -> List.NoDup (map fst (visitRow acc row)).
Proof.
  intros Hnd. unfold visitRow. rewrite keys_update.
  destruct (JS.get acc (VideoRecord.cluster row)) eqn:G; [exact Hnd|].
  rewrite keys_set_fresh by exact G.
  apply List.NoDup_app; [exact Hnd | repeat constructor; simpl; tauto |].
  intros k Hk [<-|[]]. now apply get_None_keys in G.
Qed.

Lemma visit_all (data : list VideoRecord.t) :
  forall (acc : JS.object ClusterGroup.t) (done : list VideoRecord.t),
  (forall c, JS.get acc c = groupFor c (rowsOf c done)) ->
  List.NoDup (map fst acc) ->
  (forall c, JS.get (fold_left visitRow data acc) c = groupFor c (rowsOf c (done ++ data))) /\
  List.NoDup (map fst (fold_left visitRow data acc)).
Proof.
  induction data as [|row data IH]; intros acc done Hget Hnd; simpl.
  - rewrite app_nil_r. auto.
  - replace (done ++ row :: data) with ((done ++ [row]) ++ data)
      by now rewrite <- app_assoc.
    apply IH; [now apply visitRow_get | now apply visitRow_keys].
Qed.

Lemma clusterGroups_get (data : list VideoRecord.t) (c : Z) :
  JS.get (clusterGroups data) c = groupFor c (rowsOf c data).
Proof.
  destruct (visit_all data [] []) as [H _]; [reflexivity | constructor |].
  apply H.
Qed.

Lemma clusterGroups_keys (data : list VideoRecord.t) :
  List.NoDup (map fst (clusterGroups data)).
Proof.
  destruct (visit_all data [] []) as [_ H]; [reflexivity | constructor |].
  exact H.
Qed.

Lemma clusterGroups_In (data : list VideoRecord.t) (c : Z) (g : ClusterGroup.t) :
  In (c, g) (clusterGroups data) <->
  rowsOf c data <> [] /\ g = groupOf c (rowsOf c data).
Proof.
  split.
  - intros H. apply In_get in H; [|apply clusterGroups_keys].
    rewrite clusterGroups_get in H.
    destruct (rowsOf c data); simpl in H; [discriminate|].
    split; congruence.
  - intros [Hne ->]. apply get_In. rewrite clusterGroups_get.
    destruct (rowsOf c data); [congruence | reflexivity].
Qed.

(** ** The aggregator output *)

Lemma stats_In (data : list VideoRecord.t) (e : ClusterStats.t) :
  In e (stats data) <->
  exists c, rowsOf c data <> [] /\ e = statsOfGroup (groupOf c (rowsOf c data)).
Proof.
  unfold stats, JS.Object_values. rewrite List.in_map_iff. split.
  - intros (g & <- & Hg). apply List.in_map_iff in Hg.
    destruct Hg as ([c g'] & <- & Hin). simpl.
    apply (Permutation_in _ (own_entries_perm _)) in Hin.
    apply clusterGroups_In in Hin. destruct Hin as [Hne ->]. eauto.
  - intros (c & Hne & ->). eexists; split; [reflexivity|].
    apply List.in_map_iff. exists (c, groupOf c (rowsOf c data)). split; [reflexivity|].
    apply (Permutation_in _ (Permutation_sym (own_entries_perm _))).
    now apply clusterGroups_In.
Qed.

Lemma stats_clusters (data : list VideoRecord.t) :
  List.NoDup (map ClusterStats.cluster (stats data)).
Proof.
  unfold stats, JS.Object_values. rewrite !List.map_map.
  rewrite (List.map_ext_in _ fst).
  - apply (Permutation_NoDup (l := map fst (clusterGroups data))).
    + apply Permutation_map, Permutation_sym, own_entries_perm.
    + apply clusterGroups_keys.
  - intros [c g] Hin. simpl.
    apply (Permutation_in _ (own_entries_perm _)) in Hin.
    apply clusterGroups_In in Hin. destruct Hin as [_ ->].
    apply groupOf_fields.
Qed.

Lemma sortedStats_perm (data : list VideoRecord.t) :
  Permutation (sortedStats data) (stats data).
Proof. apply sort_perm. Qed.

Lemma sortedStats_In (data : list VideoRecord.t) (e : ClusterStats.t) :
  In e (sortedStats data) <->
  exists c, rowsOf c data <> [] /\ e = statsOfGroup (groupOf c (rowsOf c data)).
Proof.
  rewrite <- stats_In. split; apply Permutation_in;
    [apply sortedStats_perm | apply Permutation_sym, sortedStats_perm].
Qed.

(** The entries are exactly the cluster ids that occur in the table. *)
Lemma sortedStats_covers (data : list VideoRecord.t) (c : Z) :
  In c (map ClusterStats.cluster (sortedStats data)) <->
  In c (map VideoRecord.cluster data).
Proof.
  rewrite !List.in_map_iff. split.
  - intros (e & <- & He). apply sortedStats_In in He.
    destruct He as (c & Hne & ->).
    destruct (rowsOf c data) as [|row rows] eqn:E; [congruence|].
    assert (Hrow : In row (rowsOf c data)) by (rewrite E; now left).
    apply rowsOf_In in Hrow. destruct Hrow as [Hin Hc].
    exists row. split; [|exact Hin].
    simpl. rewrite Hc. symmetry. apply groupOf_fields.
  - intros (row & <- & Hin).
    exists (statsOfGroup (groupOf (VideoRecord.cluster row)
                            (rowsOf (VideoRecord.cluster row) data))).
    split; [simpl; apply groupOf_fields|].
    apply sortedStats_In. eexists. split; [|reflexivity].
    intros E. assert (Hrow : In row (rowsOf (VideoRecord.cluster row) data))
      by (apply rowsOf_In; auto).
    rewrite E in Hrow. inversion Hrow.
Qed.

Lemma sortedStats_clusters (data : list VideoRecord.t) :
  List.NoDup (map ClusterStats.cluster (sortedStats data)).
Proof.
  apply (Permutation_NoDup (l := map ClusterStats.cluster (stats data))).
  - apply Permutation_map, Permutation_sym, sortedStats_perm.
  - apply stats_clusters.
Qed.

Lemma nearest_binary64_number (z : Z) : Label.nearest_binary64 z <> JS.NaN.
Proof.
  unfold Label.nearest_binary64.
  destruct (Z.log2 (Z.abs z) - 52 <=? 0); [discriminate | apply overflow_number].
Qed.

(** A label the parser yields as a number is its own nearest binary64
    value, so [ToNumber] is the nearest binary64 value for every label. *)
Lemma nearest_binary64_exact (z : Z) :
  Label.parsed_as_number z = true -> Label.nearest_binary64 z = JS.Finite (inject_Z z).
Proof.
  unfold Label.parsed_as_number, Label.nearest_binary64. intros H.
  apply andb_prop in H. destruct H as [Hlo Hhi].
  apply Z.ltb_lt in Hlo, Hhi.
  replace (Z.log2 (Z.abs z) - 52 <=? 0) with true; [reflexivity|].
  symmetry. apply Z.leb_le.
  destruct (Z.eq_dec z 0) as [->|Hz]; [simpl; lia|].
  assert (Z.log2 (Z.abs z) < 53); [|lia].
  apply Z.log2_lt_pow2; lia.
Qed.

Lemma ToNumber_number (z : Z) : Label.ToNumber z <> JS.NaN.
Proof.
  unfold Label.ToNumber.
  destruct (Label.parsed_as_number z); [discriminate | apply nearest_binary64_number].
Qed.

(** Whatever the labels, no entry comes after one whose label converts to
    a larger number. *)
Lemma sortedStats_by_number (data : list VideoRecord.t) :
  StronglySorted
    (fun a b =>
       (Label.ToNumber (ClusterStats.cluster b)
        <? Label.ToNumber (ClusterStats.cluster a))%js = false)
    (sortedStats data).
Proof.
  apply (sort_sorted (fun e => Label.ToNumber (ClusterStats.cluster e))).
  intros e. apply ToNumber_number.
Qed.

Lemma ToNumber_order (a b : Z) :
  Label.parsed_as_number a = true -> Label.parsed_as_number b = true ->
  (Label.ToNumber b <? Label.ToNumber a)%js = false -> a <= b.
Proof.
  intros Ha Hb. unfold Label.ToNumber. rewrite Ha, Hb. simpl.
  rewrite Qltb_ge. now rewrite <- Zle_Qle.
Qed.

(** When the parser yields every label as a number, the entries are in
    strictly ascending order of their labels. *)
Lemma sortedStats_ascending (data : list VideoRecord.t) :
  Forall (fun row => Label.parsed_as_number (VideoRecord.cluster row) = true) data ->
  StronglySorted (fun a b => ClusterStats.cluster a < ClusterStats.cluster b)
    (sortedStats data).
Proof.
  intros Hnum. apply sorted_nodup_strict; [|apply sortedStats_clusters].
  assert (Hentry : forall e, In e (sortedStats data) ->
            Label.parsed_as_number (ClusterStats.cluster e) = true).
  { intros e He.
    assert (Hc : In (ClusterStats.cluster e) (map VideoRecord.cluster data))
      by now apply sortedStats_covers, List.in_map.
    apply List.in_map_iff in Hc. destruct Hc as (row & <- & Hrow).
    rewrite List.Forall_forall in Hnum. now apply Hnum. }
  eapply StronglySorted_weaken; [|apply sortedStats_by_number].
  intros a b Ha Hb. apply ToNumber_order; now apply Hentry.
Qed.

(** ** Sums, averages, minima and maxima of finite numbers *)

Lemma cell_or_finite (v : option Q) : isFinite (v || 0%Q)%js = true.
Proof.
  destruct v as [x|]; simpl; [|reflexivity].
  unfold JS.or_else. now destruct (JS.truthy (JS.Finite x)).
Qed.

Local Open Scope Q_scope.

Lemma overflow_zero (q : Q) : q == 0 -> JS.overflow q = JS.Finite q.
Proof.
  intros H. apply overflow_in_range.
  pose proof overflow_threshold_large. lra.
Qed.

Lemma fold_add_zeros (l : list JS.number) (a : Q) :
  a == 0 ->
  Forall (fun x => x = JS.Finite 0) l ->
  exists q, fold_left (fun a b => (a + b)%js) l (JS.Finite a) = JS.Finite q /\ q == 0.
Proof.
  intros Ha H. revert a Ha. induction H as [|x l Hx _ IH]; intros a Ha; simpl.
  - now exists a.
  - subst x. rewrite overflow_zero by lra. apply IH. lra.
Qed.

Lemma length_of_nonzero {A} (l : list A) :
  l <> [] -> Qeq_bool (inject_Z (Z.of_nat (length l))) 0 = false.
Proof.
  intros Hne. destruct l as [|x l]; [congruence|].
  apply not_true_iff_false. intros H. apply Qeq_bool_iff in H.
  unfold Qeq in H. simpl in H. lia.
Qed.

Lemma avg_zeros (l : list JS.number) :
  l <> [] -> Forall (fun x => x = JS.Finite 0) l -> isNumber (avg l) 0.
Proof.
  intros Hne Hl. unfold avg, JS.length_of.
  destruct (fold_add_zeros l 0 ltac:(reflexivity) Hl) as (q & -> & Hq). simpl.
  rewrite length_of_nonzero by exact Hne.
  assert (Hz : q / inject_Z (Z.of_nat (length l)) == 0)
    by (rewrite Hq; unfold Qdiv; ring).
  rewrite overflow_zero by exact Hz. exact Hz.
Qed.

Local Open Scope Z_scope.

Lemma fold_min_zeros (l : list JS.number) :
  Forall (fun x => x = JS.Finite 0) l ->
  fold_left JS.min2 l (JS.Finite 0) = JS.Finite 0.
Proof. induction 1 as [|x l -> _ IH]; simpl; [reflexivity | exact IH]. Qed.

Lemma fold_max_zeros (l : list JS.number) :
  Forall (fun x => x = JS.Finite 0) l ->
  fold_left JS.max2 l (JS.Finite 0) = JS.Finite 0.
Proof. induction 1 as [|x l -> _ IH]; simpl; [reflexivity | exact IH]. Qed.

Lemma min_zeros (l : list JS.number) :
  l <> [] -> Forall (fun x => x = JS.Finite 0) l -> JS.Math_min l = JS.Finite 0.
Proof.
  intros Hne Hl. destruct Hl as [|x l -> Hl]; [congruence|].
  now apply fold_min_zeros.
Qed.

Lemma max_zeros (l : list JS.number) :
  l <> [] -> Forall (fun x => x = JS.Finite 0) l -> JS.Math_max l = JS.Finite 0.
Proof.
  intros Hne Hl. destruct Hl as [|x l -> Hl]; [congruence|].
  now apply fold_max_zeros.
Qed.

Lemma average_statsOfGroup (m : Metric) (g : ClusterGroup.t) :
  average m (statsOfGroup g) = avg (values m g).
Proof. now destruct m. Qed.

Lemma minimum_statsOfGroup (m : Metric) (g : ClusterGroup.t) (x : JS.number) :
  minimum m (statsOfGroup g) = Some x -> x = JS.Math_min (values m g).
Proof. destruct m; simpl; congruence. Qed.

Lemma maximum_statsOfGroup (m : Metric) (g : ClusterGroup.t) (x : JS.number) :
  maximum m (statsOfGroup g) = Some x -> x = JS.Math_max (values m g).
Proof. destruct m; simpl; congruence. Qed.

(** ** C4 *)

(** In binary64 the labels 9007199254740993 and 9007199254740992 are one
    number. *)
Lemma binary64_large_labels :
  PrimFloat.eqb 9007199254740993 9007199254740992 = true /\
  PrimFloat.ltb 4294967296 9007199254740992 = true.
Proof. split; vm_compute; reflexivity. Qed.

(** C4, as stated, fails for labels that are too large to be numbers: the
    parser leaves 9007199254740993 and 9007199254740992 as strings, both
    convert to 2^53 under [-], the comparator returns 0 and the two entries
    stay in the order of the file, the larger label first. *)
Lemma large_labels_are_not_ascending :
  map ClusterStats.cluster (sortedStats largeLabelData)
  = [4294967296; 9007199254740993; 9007199254740992] /\
  ~ StronglySorted (fun a b => ClusterStats.cluster a < ClusterStats.cluster b)
      (sortedStats largeLabelData).
Proof.
  assert (E : map ClusterStats.cluster (sortedStats largeLabelData)
              = [4294967296; 9007199254740993; 9007199254740992])
    by (vm_compute; reflexivity).
  split; [exact E|]. intros H.
  apply (sorted_keys ClusterStats.cluster) in H. rename H into Hk.
  rewrite E in Hk.
  apply StronglySorted_inv in Hk. destruct Hk as [Hk _].
  apply StronglySorted_inv in Hk. destruct Hk as [_ Hk].
  apply Forall_inv in Hk. lia.
Qed.

(** Read backwards, the same table gives the two large labels in the
    other order: the order of these entries is the order of the file. *)
Example large_labels_follow_file_order :
  map ClusterStats.cluster (sortedStats (rev largeLabelData))
  = [4294967296; 9007199254740992; 9007199254740993].
Proof. vm_compute. reflexivity. Qed.

(** C4, amended.  For every table of integer labels,
    [calculateClusterStats] stores a sequence of entries in which no entry
    comes after one whose label converts to a larger number; when every
    label of the table is one the parser yields as a number (an integer
    strictly between -2^53 and 2^53) the sequence is strictly ascending by
    cluster id.  In every case no two entries carry the same cluster id, an
    empty table gives the empty sequence, and the [count] of every entry is
    at least 1 and is the number of rows of the table that carry its
    cluster id. *)
Theorem aggregator_sorted_with_counts (data : list VideoRecord.t) (s : State) :
  clusterStats (calculateClusterStats data s) = Some (sortedStats data) /\
  StronglySorted
    (fun a b =>
       (Label.ToNumber (ClusterStats.cluster b)
        <? Label.ToNumber (ClusterStats.cluster a))%js = false)
    (sortedStats data) /\
  (Forall (fun row => Label.parsed_as_number (VideoRecord.cluster row) = true) data ->
   StronglySorted (fun a b => ClusterStats.cluster a < ClusterStats.cluster b)
     (sortedStats data)) /\
  List.NoDup (map ClusterStats.cluster (sortedStats data)) /\
  clusterStats (calculateClusterStats [] s) = Some [] /\
  forall e, In e (sortedStats data) ->
    (1 <= ClusterStats.count e)%nat /\
    ClusterStats.count e = length (rowsOf (ClusterStats.cluster e) data).
Proof.
  split; [reflexivity|]. split; [apply sortedStats_by_number|].
  split; [apply sortedStats_ascending|]. split; [apply sortedStats_clusters|].
  split; [reflexivity|].
  intros e He. apply sortedStats_In in He. destruct He as (c & Hne & ->).
  destruct (groupOf_fields c (rowsOf c data)) as (Hc & Hn & _).
  simpl. rewrite Hc, Hn. split; [|reflexivity].
  destruct (rowsOf c data); [congruence | simpl; lia].
Qed.

(** ** C5 *)

(** C5.  A row whose cell for a metric is missing still counts: pushing
    it appends [0] to the value list of the metric and increments [count],
    so the [count] of an entry is the number of rows of its cluster.  When
    every row of a cluster lacks the cell, the average of the metric in
    the entry of the cluster is 0, and so are its minimum and maximum for
    the metrics that keep them. *)
Theorem missing_cells_count_as_zero (data : list VideoRecord.t) (m : Metric) :
  (forall row g, cell m row = None ->
     values m (pushRow row g) = values m g ++ [JS.Finite 0] /\
     ClusterGroup.count (pushRow row g) = S (ClusterGroup.count g)) /\
  (forall e, In e (sortedStats data) ->
     ClusterStats.count e = length (rowsOf (ClusterStats.cluster e) data) /\
     ((forall row, In row data ->
         VideoRecord.cluster row = ClusterStats.cluster e -> cell m row = None) ->
      isNumber (average m e) 0 /\
      (forall x, minimum m e = Some x -> isNumber x 0) /\
      (forall x, maximum m e = Some x -> isNumber x 0))).
Proof.
  split.
  - intros row g Hcell. split; [|reflexivity].
    destruct m; simpl in *; now rewrite Hcell.
  - intros e He. apply sortedStats_In in He. destruct He as (c & Hne & ->).
    destruct (groupOf_fields c (rowsOf c data)) as (Hc & Hn & _ & Hv).
    split; [simpl; now rewrite Hc, Hn|].
    intros Hmissing. simpl in Hmissing. rewrite Hc in Hmissing.
    assert (Hz : Forall (fun x => x = JS.Finite 0)
                   (values m (groupOf c (rowsOf c data)))).
    { rewrite Hv. apply List.Forall_forall. intros x Hx.
      apply List.in_map_iff in Hx. destruct Hx as (row & <- & Hrow).
      apply rowsOf_In in Hrow. destruct Hrow as [Hin Hcl].
      now rewrite (Hmissing row Hin Hcl). }
    assert (Hnv : values m (groupOf c (rowsOf c data)) <> []).
    { rewrite Hv. destruct (rowsOf c data); [congruence | discriminate]. }
    rewrite average_statsOfGroup. split; [now apply avg_zeros|].
    split; intros x Hx.
    + apply minimum_statsOfGroup in Hx. subst x.
      rewrite min_zeros by assumption. simpl. reflexivity.
    + apply maximum_statsOfGroup in Hx. subst x.
      rewrite max_zeros by assumption. simpl. reflexivity.
Qed.

(** ** C1 *)

(** The example in binary64: the average of the motion values is the
    double written [0.3], which is not greater than [0.3], and the average
    cut rate is [40]; the thresholds give the same labels as they do over
    the rationals. *)
Lemma binary64_example :
  PrimFloat.eqb Binary64.avg_motion 0.3 = true /\
  PrimFloat.eqb Binary64.avg_cut_rate 40 = true /\
  Binary64.camera_movement Binary64.avg_motion = "static"%string /\
  Binary64.pacing Binary64.avg_cut_rate = "slow"%string.
Proof. repeat split; vm_compute; reflexivity. Qed.

(** C1, as stated, fails on both labels: the spec built for the example
    cluster carries neither camera movement "moderate" nor pacing
    "medium". *)
Lemma example_profile_is_not_moderate_medium :
  option_map fst (storedMotionProfile 1 (generateSpec 1 (exampleState text_driven)))
  <> Some "moderate"%string /\
  option_map snd (storedMotionProfile 1 (generateSpec 1 (exampleState text_driven)))
  <> Some "medium"%string.
Proof. split; vm_compute; discriminate. Qed.

(** C1, amended.  For the cluster with motion values 0.1, 0.3, 0.5 and cut
    rates 20, 40, 60 the aggregator yields one entry with
    [avg_motion = 0.3], [min_motion = 0.1], [max_motion = 0.5] and
    [avg_cut_rate = 40]; whatever approach is picked, the spec built from
    it has camera movement "static" (0.3 is not above 0.3) and pacing
    "slow" (40 is not above 60). *)
Theorem example_cluster_profile (approach : Approach) :
  exists e,
    clusterStats (exampleState approach) = Some [e] /\
    isNumber (ClusterStats.avg_motion e) 0.3 /\
    isNumber (ClusterStats.min_motion e) 0.1 /\
    isNumber (ClusterStats.max_motion e) 0.5 /\
    isNumber (ClusterStats.avg_cut_rate e) 40 /\
    storedMotionProfile 1 (generateSpec 1 (exampleState approach))
    = Some ("static", "slow")%string.
Proof.
  eexists. split; [reflexivity|].
  repeat split; vm_compute; reflexivity.
Qed.

(** ** C2 *)

Lemma suggestFromMetrics_firstMatch (m : Metrics.t) :
  suggestFromMetrics m = firstMatch m.
Proof.
  destruct m as [motion cutRate visualDensity audioVolume audioVariance].
  unfold suggestFromMetrics, firstMatch, matching, rules,
    rule1, rule2, rule3, rule4, rule5, rule6, suggestion.
  cbn [List.filter map hd fst snd Metrics.motion Metrics.cutRate
       Metrics.visualDensity Metrics.audioVolume Metrics.audioVariance].
  destruct (motion >? 60%Q)%js, (cutRate >? 60%Q)%js,
    (visualDensity >? 70%Q)%js, (visualDensity >? 50%Q)%js,
    (motion <? 40%Q)%js, (motion >? 70%Q)%js,
    (audioVariance >? 70%Q)%js, (audioVolume >? 70%Q)%js;
    reflexivity.
Qed.

(** C2.  For every five radar values the classifier returns the
    suggestion of the first rule, in the listed order, whose guard holds
    (the default when none does), and [suggestApproach] returns that
    suggestion for the radar values of the cluster once a table is loaded.
    When motion > 60 and cutRate > 60 the result is motion-focused with
    high confidence, whatever the other three values are. *)
Theorem suggestion_is_first_matching_rule (m : Metrics.t) :
  suggestFromMetrics m = firstMatch m /\
  (forall s cs stats, clusterStats s = Some cs ->
     suggestApproach s stats
     = Suggestion (firstMatch (metricsOf (getRadarData s stats)))) /\
  ((Metrics.motion m >? 60%Q)%js = true ->
   (Metrics.cutRate m >? 60%Q)%js = true ->
   suggestFromMetrics m = snd rule1 /\
   ApproachSuggestion.approach (suggestFromMetrics m) = motion_focused /\
   ApproachSuggestion.confidence (suggestFromMetrics m) = high).
Proof.
  split; [apply suggestFromMetrics_firstMatch|]. split.
  - intros s cs stats Hcs. unfold suggestApproach. rewrite Hcs.
    now rewrite suggestFromMetrics_firstMatch.
  - intros Hm Hc.
    assert (H : suggestFromMetrics m = snd rule1).
    { destruct m as [motion cutRate visualDensity audioVolume audioVariance].
      cbn [Metrics.motion Metrics.cutRate] in Hm, Hc.
      unfold suggestFromMetrics. now rewrite Hm, Hc. }
    rewrite H. repeat split.
Qed.

(** The example of C2: motion 65, cut rate 65 and visual density 80 give
    motion-focused with high confidence, not image-conditioned. *)
Lemma suggestion_example :
  let m := {| Metrics.motion := JS.Finite 65; Metrics.cutRate := JS.Finite 65;
              Metrics.visualDensity := JS.Finite 80;
              Metrics.audioVolume := JS.Finite 10;
              Metrics.audioVariance := JS.Finite 10 |} in
  suggestFromMetrics m = snd rule1 /\
  ApproachSuggestion.approach (suggestFromMetrics m) = motion_focused /\
  ApproachSuggestion.confidence (suggestFromMetrics m) = high.
Proof.
  intros m.
  exact (proj2 (proj2 (suggestion_is_first_matching_rule m)) eq_refl eq_refl).
Defined.

(** ** C3 *)

Local Open Scope Q_scope.

Lemma fold_min_finite (l : list JS.number) :
  Forall (fun x => isFinite x = true) l ->
  forall a, exists q,
    fold_left JS.min2 l (JS.Finite a) = JS.Finite q /\
    (q = a \/ In (JS.Finite q) l) /\ q <= a /\
    forall x, In (JS.Finite x) l -> q <= x.
Proof.
  induction 1 as [|y l Hy _ IH]; intros a; simpl.
  - exists a. repeat split; auto using Qle_refl. intros x [].
  - destruct y as [y| | |]; try discriminate. simpl.
    destruct (JS.Qltb y a) eqn:E.
    + apply Qltb_lt in E. destruct (IH y) as (q & Hq & Hin & Hle & Hall).
      exists q. split; [exact Hq|]. split; [|split].
      * destruct Hin as [->|Hin]; auto.
      * apply Qle_trans with y; [exact Hle | now apply Qlt_le_weak].
      * intros x [[= <-]|Hx]; auto.
    + apply Qltb_ge in E. destruct (IH a) as (q & Hq & Hin & Hle & Hall).
      exists q. split; [exact Hq|]. split; [|split].
      * destruct Hin as [->|Hin]; auto.
      * exact Hle.
      * intros x [[= <-]|Hx]; [now apply Qle_trans with a | auto].
Qed.

Lemma fold_max_finite (l : list JS.number) :
  Forall (fun x => isFinite x = true) l ->
  forall a, exists q,
    fold_left JS.max2 l (JS.Finite a) = JS.Finite q /\
    (q = a \/ In (JS.Finite q) l) /\ a <= q /\
    forall x, In (JS.Finite x) l -> x <= q.
Proof.
  induction 1 as [|y l Hy _ IH]; intros a; simpl.
  - exists a. repeat split; auto using Qle_refl. intros x [].
  - destruct y as [y| | |]; try discriminate. simpl.
    destruct (JS.Qltb a y) eqn:E.
    + apply Qltb_lt in E. destruct (IH y) as (q & Hq & Hin & Hle & Hall).
      exists q. split; [exact Hq|]. split; [|split].
      * destruct Hin as [->|Hin]; auto.
      * apply Qle_trans with y; [now apply Qlt_le_weak | exact Hle].
      * intros x [[= <-]|Hx]; auto.
    + apply Qltb_ge in E. destruct (IH a) as (q & Hq & Hin & Hle & Hall).
      exists q. split; [exact Hq|]. split; [|split].
      * destruct Hin as [->|Hin]; auto.
      * exact Hle.
      * intros x [[= <-]|Hx]; [now apply Qle_trans with a | auto].
Qed.

Lemma Math_min_finite (l : list JS.number) :
  l <> [] -> Forall (fun x => isFinite x = true) l ->
  exists q, JS.Math_min l = JS.Finite q /\ In (JS.Finite q) l /\
            forall x, In (JS.Finite x) l -> q <= x.
Proof.
  intros Hne Hl. destruct Hl as [|y l Hy Hl]; [congruence|].
  destruct y as [y| | |]; try discriminate.
  destruct (fold_min_finite l Hl y) as (q & Hq & Hin & Hle & Hall).
  exists q. unfold JS.Math_min. simpl. split; [exact Hq|]. split.
  - destruct Hin as [->|Hin]; simpl; auto.
  - intros x [[= <-]|Hx]; auto.
Qed.

Lemma Math_max_finite (l : list JS.number) :
  l <> [] -> Forall (fun x => isFinite x = true) l ->
  exists q, JS.Math_max l = JS.Finite q /\ In (JS.Finite q) l /\
            forall x, In (JS.Finite x) l -> x <= q.
Proof.
  intros Hne Hl. destruct Hl as [|y l Hy Hl]; [congruence|].
  destruct y as [y| | |]; try discriminate.
  destruct (fold_max_finite l Hl y) as (q & Hq & Hin & Hle & Hall).
  exists q. unfold JS.Math_max. simpl. split; [exact Hq|]. split.
  - destruct Hin as [->|Hin]; simpl; auto.
  - intros x [[= <-]|Hx]; auto.
Qed.





Lemma sub_Finite (x y : Q) : (JS.Finite x - JS.Finite y)%js = JS.overflow (x - y).
Proof. reflexivity. Qed.





(** The premise on [max - min] cannot be dropped: when all values are
    finite and [max - min] is not, the largest value is mapped to [NaN]. *)
Lemma normalize_out_of_range (x : Q) (l : list JS.number) :
  Forall (fun y => isFinite y = true) l -> In (JS.Finite x) l ->
  (forall y, In (JS.Finite y) l -> y <= x) ->
  isFinite (JS.Math_max l - JS.Math_min l)%js = false ->
  normalize (JS.Finite x) l = JS.NaN.
Proof.
  intros Hl Hx Hmax Hspread.
  assert (Hne : l <> []) by (intros ->; inversion Hx).
  destruct (Math_min_finite l Hne Hl) as (lo & Hlo & Hlo_in & Hlo_le).
  destruct (Math_max_finite l Hne Hl) as (hi & Hhi & Hhi_in & Hhi_ge).
  pose proof overflow_threshold_large as T.
  pose proof (Hlo_le hi Hhi_in) as Hlohi.
  assert (Exhi : x == hi) by (apply Qle_antisym; auto).
  unfold normalize. rewrite Hlo, Hhi in *. rewrite sub_Finite in Hspread.
  assert (Hbig : JS.overflow_threshold <= hi - lo).
  { destruct (overflow_cases (hi - lo)) as [[H _]|[[H _]|[_ H]]];
      [exact H | lra | rewrite H in Hspread; discriminate]. }
  assert (Hinf : forall q, q == hi - lo -> JS.overflow q = JS.Infinity).
  { intros q Hq. destruct (overflow_cases q) as [[_ H]|[[H _]|[[_ H] _]]];
      [exact H | lra | lra]. }
  cbn [JS.eqb]. replace (Qeq_bool hi lo) with false.
  - rewrite !sub_Finite, (Hinf (x - lo)), (Hinf (hi - lo)) by lra. reflexivity.
  - symmetry. apply not_true_iff_false. intros H. apply Qeq_bool_iff in H. lra.
Qed.

Lemma radarValue_getRadarData (s : State) (cs : list ClusterStats.t)
    (e : ClusterStats.t) (m : Metric) :
  clusterStats s = Some cs ->
  radarValue m (getRadarData s e)
  = Some (normalize (average m e) (map (average m) cs)).
Proof.
  intros Hcs. unfold getRadarData. rewrite Hcs. now destruct m.
Qed.

Lemma finite_realOf (a : JS.number) : isFinite a = true -> a = JS.Finite (realOf a).
Proof. destruct a; simpl; congruence. Qed.

(** In binary64 the difference of [1e308] and [-1e308] is infinite, and
    the value [normalize] computes for the larger of the two is [NaN]. *)
Lemma binary64_spread_example :
  PrimFloat.is_infinity (1e308 - (-1e308))%float = true /\
  PrimFloat.is_nan (Binary64.normalize 1e308 (-1e308) 1e308) = true /\
  PrimFloat.eqb (Binary64.normalize (-1e308) (-1e308) 1e308) 0 = true.
Proof. repeat split; vm_compute; reflexivity. Qed.



Local Open Scope Z_scope.

(** ** C6 *)

(** Called directly, [generateSpec] does not need a choice: it falls back
    to text-driven.  Only the button guards the build. *)
Lemma generateSpec_falls_back_to_text_driven
    (s : State) (cs : list ClusterStats.t) (c : Z) (stats : ClusterStats.t) :
  clusterStats s = Some cs ->
  JS.find (fun e => ClusterStats.cluster e =? c) cs = Some stats ->
  selectedApproaches s !! c = None ->
  exists s', generateSpec c s = Returns s' /\
             generationSpecs s' !! c
             = Some (spec c stats text_driven (currentTokens s c)).
Proof.
  intros Hcs Hfind Hno. unfold generateSpec. rewrite Hcs, Hfind, Hno.
  eexists. split; [reflexivity|]. simpl. apply lookup_insert_eq.
Qed.

(** C6.  On the page, the generate button of a cluster for which no
    approach has been chosen is disabled, and clicking it changes nothing
    and throws nothing: no spec is built or stored. *)
Theorem generate_button_inert_without_approach (s : State) (c : Z) (b : Button) :
  In (c, b) (generateButtons s) ->
  selectedApproaches s !! c = None ->
  disabled b = true /\ click b s = Returns s.
Proof.
  intros Hin Hno. unfold generateButtons in Hin.
  destruct (clusterStats s) as [cs|]; [|contradiction].
  apply List.in_map_iff in Hin. destruct Hin as (stats & [= <- <-] & _).
  unfold click, generateButton. simpl. rewrite Hno. split; reflexivity.
Qed.

(** ** C7 *)

Lemma trimStart_clean (s : string) : startsClean (JS.trimStart s).
Proof.
  induction s as [|c s IH]; simpl; [exact I|].
  destruct (JS.is_space c) eqn:E; [exact IH | exact E].
Qed.

Lemma trimStart_of_clean (s : string) : startsClean s -> JS.trimStart s = s.
Proof. destruct s as [|c s]; simpl; [reflexivity|]. now intros ->. Qed.

Lemma trimEnd_clean (s : string) : startsClean s -> startsClean (JS.trimEnd s).
Proof.
  destruct s as [|c s]; simpl; [auto|]. intros E.
  destruct (JS.trimEnd s); [rewrite E|]; exact E.
Qed.

Lemma trimEnd_idempotent (s : string) : JS.trimEnd (JS.trimEnd s) = JS.trimEnd s.
Proof.
  induction s as [|c s IH]; simpl; [reflexivity|].
  destruct (JS.trimEnd s) as [|c' r] eqn:E.
  - destruct (JS.is_space c) eqn:Ec; simpl; [reflexivity | now rewrite Ec].
  - simpl in IH |- *. now rewrite IH.
Qed.

Lemma trim_idempotent (s : string) : JS.trim (JS.trim s) = JS.trim s.
Proof.
  unfold JS.trim.
  rewrite (trimStart_of_clean (JS.trimEnd (JS.trimStart s))).
  - apply trimEnd_idempotent.
  - apply trimEnd_clean, trimStart_clean.
Qed.

Lemma includes_In (arr : list string) (s : string) :
  JS.includes arr s = true <-> In s arr.
Proof.
  unfold JS.includes. rewrite List.existsb_exists. split.
  - intros (x & Hx & E). apply String.eqb_eq in E. now subst.
  - intros H. exists s. split; [exact H | apply String.eqb_refl].
Qed.

Lemma is_empty_true (s : string) : JS.is_empty s = true <-> s = EmptyString.
Proof. destruct s; simpl; split; congruence. Qed.

Lemma filter_index_In {A} (p : nat -> bool) (i : nat) (l : list A) (x : A) :
  In x (JS.filter_index p i l) -> In x l.
Proof.
  revert i. induction l as [|y l IH]; intros i; simpl; [auto|].
  destruct (p i); simpl; intros H; [destruct H|]; eauto.
Qed.

Lemma filter_index_length {A} (p : nat -> bool) (i : nat) (l : list A) :
  (length (JS.filter_index p i l) <= length l)%nat.
Proof.
  revert i. induction l as [|y l IH]; intros i; simpl; [lia|].
  destruct (p i); simpl; specialize (IH (S i)); lia.
Qed.

Lemma filter_index_NoDup {A} (p : nat -> bool) (i : nat) (l : list A) :
  List.NoDup l -> List.NoDup (JS.filter_index p i l).
Proof.
  intros H. revert i. induction H as [|y l Hy _ IH]; intros i; simpl; [constructor|].
  destruct (p i); [|apply IH].
  constructor; [|apply IH]. intros Hin. apply Hy. eapply filter_index_In, Hin.
Qed.

Lemma tidy_trimmed_distinct (l : list string) :
  tidy l -> List.NoDup (map JS.trim l).
Proof.
  intros (_ & Hnd & Ht). replace (map JS.trim l) with l; [exact Hnd|].
  induction Ht as [|t l E _ IH]; simpl; [reflexivity|].
  inversion Hnd; subst. rewrite E. f_equal. auto.
Qed.

Lemma addTrendToken_tidy (cluster : Z) (token : string) (s : State) :
  (forall c, tidy (currentTokens s c)) ->
  forall c, tidy (currentTokens (addTrendToken cluster token s) c).
Proof.
  intros H c. unfold addTrendToken.
  destruct (JS.is_empty (JS.trim token)); [apply H|].
  destruct (3 <=? length (currentTokens s cluster))%nat eqn:E3; [apply H|].
  destruct (JS.includes (currentTokens s cluster) (JS.trim token)) eqn:Ei; [apply H|].
  unfold currentTokens at 1. simpl.
  destruct (decide (cluster = c)) as [->|Hne].
  - rewrite lookup_insert_eq. simpl.
    destruct (H c) as (Hlen & Hnd & Ht).
    apply Nat.leb_gt in E3. repeat split.
    + rewrite length_app. simpl. lia.
    + apply List.NoDup_app; [exact Hnd | repeat constructor; simpl; tauto |].
      intros x Hx [<-|[]]. apply includes_In in Hx. congruence.
    + apply Forall_app. split; [exact Ht|].
      constructor; [apply trim_idempotent | constructor].
  - rewrite lookup_insert_ne by exact Hne. apply H.
Qed.

Lemma removeTrendToken_tidy (cluster : Z) (index : nat) (s : State) :
  (forall c, tidy (currentTokens s c)) ->
  forall c, tidy (currentTokens (removeTrendToken cluster index s) c).
Proof.
  intros H c. unfold removeTrendToken, currentTokens at 1. simpl.
  destruct (decide (cluster = c)) as [->|Hne].
  - rewrite lookup_insert_eq. simpl.
    destruct (H c) as (Hlen & Hnd & Ht). repeat split.
    + etransitivity; [apply filter_index_length | exact Hlen].
    + now apply filter_index_NoDup.
    + apply List.Forall_forall. intros x Hx. apply filter_index_In in Hx.
      rewrite List.Forall_forall in Ht. now apply Ht.
  - rewrite lookup_insert_ne by exact Hne. apply H.
Qed.

Lemma applyTokenOps_tidy (ops : list TokenOp) (s : State) :
  (forall c, tidy (currentTokens s c)) ->
  forall c, tidy (currentTokens (applyTokenOps ops s) c).
Proof.
  revert s. induction ops as [|op ops IH]; intros s H; simpl; [exact H|].
  apply IH. destruct op; simpl.
  - now apply addTrendToken_tidy.
  - now apply removeTrendToken_tidy.
Qed.

(** C7.  Start from a state with no trend tokens and apply any sequence
    of add-token and remove-token operations.  For every cluster the token
    list then has at most 3 entries and no two entries that are equal
    after trimming; and adding a token leaves the whole state unchanged
    when the list already has 3 entries, when the trimmed token is already
    in the list, or when the token is empty after trimming.  The handlers
    are total functions on states: they cannot throw. *)
Theorem trend_tokens_bounded_and_distinct
    (s0 : State) (ops : list TokenOp) (c : Z) :
  trendTokens s0 = ∅ ->
  let s := applyTokenOps ops s0 in
  let current := currentTokens s c in
  (length current <= 3)%nat /\
  List.NoDup (map JS.trim current) /\
  forall token,
    length current = 3%nat \/ In (JS.trim token) current
    \/ JS.trim token = EmptyString ->
    addTrendToken c token s = s.
Proof.
  intros Hempty s current.
  assert (Htidy : tidy current).
  { apply applyTokenOps_tidy. intros c'. unfold currentTokens.
    rewrite Hempty, lookup_empty. simpl.
    repeat split; [simpl; lia | constructor | constructor]. }
  split; [apply Htidy|]. split; [now apply tidy_trimmed_distinct|].
  intros token Hcase. unfold addTrendToken. fold current.
  destruct (JS.is_empty (JS.trim token)) eqn:Ee; [reflexivity|].
  destruct (3 <=? length current)%nat eqn:E3; [reflexivity|].
  destruct (JS.includes current (JS.trim token)) eqn:Ei; [reflexivity|].
  exfalso. destruct Hcase as [Hlen|[Hin|Hemp]].
  - apply Nat.leb_gt in E3. lia.
  - apply includes_In in Hin. congruence.
  - apply is_empty_true in Hemp. congruence.
Qed.

(** ** C8, C9, C10 *)

(** What [generateSpec] does once the cluster is found. *)
Lemma generateSpec_found
    (s : State) (cs : list ClusterStats.t) (c : Z) (stats : ClusterStats.t) :
  clusterStats s = Some cs ->
  JS.find (fun e => ClusterStats.cluster e =? c) cs = Some stats ->
  generateSpec c s =
  Returns
    (setSelectedCluster (Some c)
       (setGenerationSpecs
          (fun prev =>
             <[c := spec c stats (default text_driven (selectedApproaches s !! c))
                      (currentTokens s c)]> prev)
          s)).
Proof. intros Hcs Hfind. unfold generateSpec. now rewrite Hcs, Hfind. Qed.

Lemma find_cluster_None (cs : list ClusterStats.t) (c : Z) :
  ~ In c (map ClusterStats.cluster cs) ->
  JS.find (fun e => ClusterStats.cluster e =? c) cs = None.
Proof.
  intros Hnot. unfold JS.find.
  destruct (List.find _ cs) as [e|] eqn:E; [|reflexivity].
  apply List.find_some in E. destruct E as [Hin Heq].
  apply Z.eqb_eq in Heq. exfalso. apply Hnot. rewrite <- Heq.
  now apply List.in_map.
Qed.

(** C8.  The spec built for a cluster is a function of the entry of the
    cluster, the chosen approach and the token list alone: two states that
    agree on these three store the same document for the cluster, whatever
    else differs; and building again right after a build returns the very
    same state. *)
Theorem generateSpec_deterministic_and_idempotent
    (s1 s2 : State) (cs1 cs2 : list ClusterStats.t) (c : Z) (stats : ClusterStats.t) :
  clusterStats s1 = Some cs1 ->
  clusterStats s2 = Some cs2 ->
  JS.find (fun e => ClusterStats.cluster e =? c) cs1 = Some stats ->
  JS.find (fun e => ClusterStats.cluster e =? c) cs2 = Some stats ->
  selectedApproaches s1 !! c = selectedApproaches s2 !! c ->
  trendTokens s1 !! c = trendTokens s2 !! c ->
  exists s1' s2' g,
    generateSpec c s1 = Returns s1' /\
    generateSpec c s2 = Returns s2' /\
    generationSpecs s1' !! c = Some g /\
    generationSpecs s2' !! c = Some g /\
    generateSpec c s1' = Returns s1'.
Proof.
  intros Hcs1 Hcs2 Hf1 Hf2 Ha Ht.
  rewrite (generateSpec_found s1 cs1 c stats Hcs1 Hf1).
  rewrite (generateSpec_found s2 cs2 c stats Hcs2 Hf2).
  do 3 eexists. split; [reflexivity|]. split; [reflexivity|].
  split; [simpl; apply lookup_insert_eq|]. split.
  - simpl. unfold currentTokens. rewrite <- Ha, <- Ht. apply lookup_insert_eq.
  - erewrite generateSpec_found; [|exact Hcs1|exact Hf1].
    unfold setSelectedCluster, setGenerationSpecs, currentTokens. simpl.
    now rewrite insert_insert_eq.
Qed.

(** C9.  A build for cluster [c] stores the new spec under [c] and leaves
    every other entry of the spec store as it was; no entry disappears,
    and the loaded data, the approach choices and the trend tokens are
    untouched. *)
Theorem generateSpec_touches_only_its_cluster (s s' : State) (c : Z) :
  generateSpec c s = Returns s' ->
  (forall d, d <> c -> generationSpecs s' !! d = generationSpecs s !! d) /\
  (forall d, is_Some (generationSpecs s !! d) -> is_Some (generationSpecs s' !! d)) /\
  (forall cs stats,
     clusterStats s = Some cs ->
     JS.find (fun e => ClusterStats.cluster e =? c) cs = Some stats ->
     generationSpecs s' !! c
     = Some (spec c stats (default text_driven (selectedApproaches s !! c))
               (currentTokens s c))) /\
  interpretationData s' = interpretationData s /\
  clusterStats s' = clusterStats s /\
  selectedApproaches s' = selectedApproaches s /\
  trendTokens s' = trendTokens s.
Proof.
  unfold generateSpec.
  destruct (clusterStats s) as [cs|] eqn:Hcs; [|discriminate].
  destruct (JS.find _ cs) as [stats|] eqn:Hfind.
  - intros [= <-]. simpl. repeat split; auto.
    + intros d Hd. now apply lookup_insert_ne.
    + intros d Hd. destruct (decide (c = d)) as [->|Hne].
      * rewrite lookup_insert_eq. eauto.
      * now rewrite lookup_insert_ne.
    + intros cs' stats' [= <-] Hfind'. rewrite Hfind in Hfind'.
      injection Hfind' as <-. apply lookup_insert_eq.
  - intros [= <-]. repeat split; auto.
    intros cs' stats' Hcs' Hfind'. congruence.
Qed.

(** C10.  When the cluster id is not among the loaded entries,
    [generateSpec] returns without building: the state, and with it the
    spec store and the most-recently-built marker, is unchanged. *)
Theorem generateSpec_unknown_cluster_is_noop
    (s : State) (cs : list ClusterStats.t) (c : Z) :
  clusterStats s = Some cs ->
  ~ In c (map ClusterStats.cluster cs) ->
  generateSpec c s = Returns s /\
  (forall s', generateSpec c s = Returns s' ->
     generationSpecs s' = generationSpecs s /\
     selectedCluster s' = selectedCluster s).
Proof.
  intros Hcs Hnot.
  assert (H : generateSpec c s = Returns s).
  { unfold generateSpec. now rewrite Hcs, (find_cluster_None cs c Hnot). }
  split; [exact H|]. intros s' Hs'. rewrite H in Hs'. now injection Hs' as <-.
Qed.

(** ** Worked instances *)

(** The aggregator on the two-cluster table: cluster -1 comes first, each
    entry counts its two rows. *)
Example twoClusterData_sorted :
  map (fun e => (ClusterStats.cluster e, ClusterStats.count e))
    (sortedStats twoClusterData)
  = [(-1, 2%nat); (2, 2%nat)].
Proof. vm_compute. reflexivity. Qed.

(** Instance of C4: the labels of the two-cluster table, 2 and -1, are
    numbers, and its entries come out strictly ascending. *)
Lemma aggregator_sorted_instance :
  Forall (fun row => Label.parsed_as_number (VideoRecord.cluster row) = true)
    twoClusterData /\
  StronglySorted (fun a b => ClusterStats.cluster a < ClusterStats.cluster b)
    (sortedStats twoClusterData).
Proof.
  assert (Hnum : Forall (fun row => Label.parsed_as_number (VideoRecord.cluster row) = true)
                   twoClusterData)
    by (repeat constructor).
  destruct (aggregator_sorted_with_counts twoClusterData initialState)
    as (_ & _ & Hsorted & _).
  split; [exact Hnum | exact (Hsorted Hnum)].
Defined.

(** A table with a single cluster: every radar value is 50. *)
Example single_cluster_radar (approach : Approach) :
  map RadarPoint.value (getRadarData (exampleState approach) exampleEntry)
  = [JS.Finite 50; JS.Finite 50; JS.Finite 50; JS.Finite 50; JS.Finite 50].
Proof. vm_compute. reflexivity. Qed.

(** Two clusters: the one with the smaller motion average plots at 0,
    the other one at 100. *)
Example two_cluster_radar_motion :
  map (fun e =>
         option_map (fun v => (isFinite v, Qred (realOf v)))
           (radarValue Motion (getRadarData twoClusterState e)))
    (sortedStats twoClusterData)
  = [Some (true, 0%Q); Some (true, 100%Q)].
Proof. vm_compute. reflexivity. Qed.

(** The token session ends with two tokens for cluster 1 and one for
    cluster 2. *)
Example exampleTokenOps_result :
  let s := applyTokenOps exampleTokenOps initialState in
  currentTokens s 1 = ["upbeat"; "minimalist"]%string /\
  currentTokens s 2 = ["upbeat"]%string.
Proof. vm_compute. split; reflexivity. Qed.


(** Instance of C5: every row of cluster -1 lacks the motion cell. *)
Lemma missing_cells_instance :
  In noiseEntry (sortedStats twoClusterData) /\
  ClusterStats.count noiseEntry = 2%nat /\
  isNumber (ClusterStats.avg_motion noiseEntry) 0 /\
  isNumber (ClusterStats.min_motion noiseEntry) 0 /\
  isNumber (ClusterStats.max_motion noiseEntry) 0.
Proof.
  assert (Hin : In noiseEntry (sortedStats twoClusterData))
    by (vm_compute; left; reflexivity).
  destruct (missing_cells_count_as_zero twoClusterData Motion) as [_ H].
  destruct (H noiseEntry Hin) as [Hcount Hzero].
  assert (Hmissing : forall r, In r twoClusterData ->
            VideoRecord.cluster r = ClusterStats.cluster noiseEntry ->
            cell Motion r = None).
  { intros r Hr. simpl in Hr.
    destruct Hr as [<-|[<-|[<-|[<-|[]]]]]; simpl; intros E;
      try reflexivity; discriminate E. }
  destruct (Hzero Hmissing) as (Havg & Hmin & Hmax).
  split; [exact Hin|]. split; [exact Hcount|]. split; [exact Havg|].
  split; [exact (Hmin _ eq_refl) | exact (Hmax _ eq_refl)].
Defined.

(** Instance of C6: the example table is loaded and no approach has been
    picked for cluster 1. *)
Lemma generate_button_instance :
  let s := handleFileUpload exampleData initialState in
  let b := generateButton s exampleEntry in
  In (1, b) (generateButtons s) /\
  selectedApproaches s !! 1 = None /\
  disabled b = true /\ click b s = Returns s.
Proof.
  intros s b.
  assert (Hin : In (1, b) (generateButtons s)) by (left; reflexivity).
  assert (Hno : selectedApproaches s !! 1 = None) by reflexivity.
  split; [exact Hin|]. split; [exact Hno|].
  exact (generate_button_inert_without_approach s 1 b Hin Hno).
Defined.

(** Instance of C7: the example session on the first render. *)
Lemma trend_tokens_instance :
  trendTokens initialState = ∅ /\
  let s := applyTokenOps exampleTokenOps initialState in
  let current := currentTokens s 1 in
  (length current <= 3)%nat /\
  List.NoDup (map JS.trim current) /\
  forall token,
    length current = 3%nat \/ In (JS.trim token) current
    \/ JS.trim token = EmptyString ->
    addTrendToken 1 token s = s.
Proof.
  split; [reflexivity|].
  exact (trend_tokens_bounded_and_distinct initialState exampleTokenOps 1 eq_refl).
Defined.

(** Instance of C8: the example state, and the same state after a first
    build. *)
Lemma generateSpec_twice_instance :
  let s1 := exampleState image_conditioned in
  let s2 := setSelectedCluster (Some 7) (exampleState image_conditioned) in
  let cs := sortedStats exampleData in
  clusterStats s1 = Some cs /\
  clusterStats s2 = Some cs /\
  JS.find (fun e => ClusterStats.cluster e =? 1) cs = Some exampleEntry /\
  selectedApproaches s1 !! 1 = selectedApproaches s2 !! 1 /\
  trendTokens s1 !! 1 = trendTokens s2 !! 1 /\
  exists s1' s2' g,
    generateSpec 1 s1 = Returns s1' /\
    generateSpec 1 s2 = Returns s2' /\
    generationSpecs s1' !! 1 = Some g /\
    generationSpecs s2' !! 1 = Some g /\
    generateSpec 1 s1' = Returns s1'.
Proof.
  intros s1 s2 cs.
  assert (Hf : JS.find (fun e => ClusterStats.cluster e =? 1) cs = Some exampleEntry)
    by reflexivity.
  split; [reflexivity|]. split; [reflexivity|]. split; [exact Hf|].
  split; [reflexivity|]. split; [reflexivity|].
  exact (generateSpec_deterministic_and_idempotent s1 s2 cs cs 1 exampleEntry
           eq_refl eq_refl Hf Hf eq_refl eq_refl).
Defined.

(** Instance of C9: the spec store holds a spec for cluster 2 and an
    earlier spec for cluster -1; a build for cluster -1 replaces the
    latter and leaves the former as it was. *)
Lemma generateSpec_frame_instance :
  let s := twoSpecsState in
  generationSpecs s !! 2 = Some (spec 2 busyEntry motion_focused ["upbeat"%string]) /\
  generationSpecs s !! (-1) = Some (spec (-1) noiseEntry text_driven []) /\
  exists s',
    generateSpec (-1) s = Returns s' /\
    generationSpecs s' !! 2 = Some (spec 2 busyEntry motion_focused ["upbeat"%string]) /\
    generationSpecs s' !! (-1) = Some (spec (-1) noiseEntry image_conditioned []) /\
    (forall d, d <> -1 -> generationSpecs s' !! d = generationSpecs s !! d) /\
    (forall d, is_Some (generationSpecs s !! d) -> is_Some (generationSpecs s' !! d)) /\
    (forall cs stats,
       clusterStats s = Some cs ->
       JS.find (fun e => ClusterStats.cluster e =? -1) cs = Some stats ->
       generationSpecs s' !! (-1)
       = Some (spec (-1) stats (default text_driven (selectedApproaches s !! (-1)))
                 (currentTokens s (-1)))) /\
    interpretationData s' = interpretationData s /\
    clusterStats s' = clusterStats s /\
    selectedApproaches s' = selectedApproaches s /\
    trendTokens s' = trendTokens s.
Proof.
  intros s.
  assert (Hkept : generationSpecs s !! 2
                  = Some (spec 2 busyEntry motion_focused ["upbeat"%string]))
    by (vm_compute; reflexivity).
  assert (Hold : generationSpecs s !! (-1) = Some (spec (-1) noiseEntry text_driven []))
    by (vm_compute; reflexivity).
  set (s' := setSelectedCluster (Some (-1))
               (setGenerationSpecs
                  (fun prev => <[-1 := spec (-1) noiseEntry image_conditioned []]> prev) s)).
  assert (Hbuild : generateSpec (-1) s = Returns s') by (vm_compute; reflexivity).
  pose proof (generateSpec_touches_only_its_cluster s s' (-1) Hbuild) as Hframe.
  split; [exact Hkept|]. split; [exact Hold|].
  exists s'. split; [exact Hbuild|]. split; [|split].
  - destruct Hframe as [Hother _]. rewrite (Hother 2) by discriminate. exact Hkept.
  - apply lookup_insert_eq.
  - exact Hframe.
Defined.

(** Instance of C10: cluster 9 is not in the example table. *)
Lemma generateSpec_unknown_cluster_instance :
  let s := exampleState text_driven in
  let cs := sortedStats exampleData in
  clusterStats s = Some cs /\
  ~ In 9 (map ClusterStats.cluster cs) /\
  generateSpec 9 s = Returns s /\
  (forall s', generateSpec 9 s = Returns s' ->
     generationSpecs s' = generationSpecs s /\
     selectedCluster s' = selectedCluster s).
Proof.
  intros s cs.
  assert (Hnot : ~ In 9 (map ClusterStats.cluster cs)).
  { simpl. intros [H|[]]. discriminate H. }
  split; [reflexivity|]. split; [exact Hnot|].
  exact (generateSpec_unknown_cluster_is_noop s cs 9 eq_refl Hnot).
Defined.

(** * Further properties *)

(** ** The aggregator: coverage and conservation *)

Lemma list_sum_perm (l l' : list nat) :
  Permutation l l' -> list_sum l = list_sum l'.
Proof. induction 1; simpl; lia. Qed.

Lemma groupTotal_set_fresh (o : JS.object ClusterGroup.t) (k : Z) (g : ClusterGroup.t) :
  JS.get o k = None ->
  groupTotal (JS.set o k g) = (groupTotal o + ClusterGroup.count g)%nat.
Proof.
  unfold groupTotal. induction o as [|[k0 g0] o IH]; simpl; [lia|].
  destruct (k =? k0); [discriminate|]. intros H. simpl. rewrite IH by exact H. lia.
Qed.

Lemma groupTotal_push (o : JS.object ClusterGroup.t) (k : Z) (row : VideoRecord.t) :
  JS.get o k <> None ->
  groupTotal (JS.update o k (pushRow row)) = S (groupTotal o).
Proof.
  unfold groupTotal. induction o as [|[k0 g0] o IH]; simpl; [congruence|].
  destruct (k =? k0); simpl; [lia|]. intros H. rewrite IH by exact H. lia.
Qed.

Lemma groupTotal_visitRow (o : JS.object ClusterGroup.t) (row : VideoRecord.t) :
  groupTotal (visitRow o row) = S (groupTotal o).
Proof.
  unfold visitRow.
  destruct (JS.get o (VideoRecord.cluster row)) eqn:G.
  - apply groupTotal_push. congruence.
  - rewrite groupTotal_push.
    + rewrite groupTotal_set_fresh by exact G. simpl. lia.
    + rewrite get_set, Z.eqb_refl. discriminate.
Qed.

Lemma groupTotal_clusterGroups (data : list VideoRecord.t) :
  groupTotal (clusterGroups data) = length data.
Proof.
  unfold clusterGroups.
  assert (H : forall acc, groupTotal (fold_left visitRow data acc)
                          = (groupTotal acc + length data)%nat).
  { induction data as [|row data IH]; intros acc; simpl; [lia|].
    rewrite IH, groupTotal_visitRow. lia. }
  apply H.
Qed.

(** X1.  The entries of the aggregate are exactly the cluster ids that
    occur in the table, and the [videos] of an entry are the rows of its
    cluster in table order. *)
Theorem aggregate_entries_are_the_clusters_present (data : list VideoRecord.t) :
  (forall c, In c (map ClusterStats.cluster (sortedStats data)) <->
             In c (map VideoRecord.cluster data)) /\
  (forall e, In e (sortedStats data) ->
     ClusterStats.videos e = rowsOf (ClusterStats.cluster e) data).
Proof.
  split; [intros c; apply sortedStats_covers|].
  intros e He. apply sortedStats_In in He. destruct He as (c & _ & ->).
  destruct (groupOf_fields c (rowsOf c data)) as (Hc & _ & Hv & _).
  simpl. now rewrite Hc, Hv.
Qed.

(** X2.  No row is lost or counted twice: the [count] fields of the
    aggregate add up to the number of rows of the table. *)
Theorem aggregate_counts_add_up (data : list VideoRecord.t) :
  totalCount (sortedStats data) = length data.
Proof.
  unfold totalCount.
  rewrite (list_sum_perm _ (map ClusterStats.count (stats data)))
    by apply Permutation_map, sortedStats_perm.
  unfold stats, JS.Object_values. rewrite !List.map_map. simpl.
  rewrite (list_sum_perm _ (map (fun e => ClusterGroup.count (snd e)) (clusterGroups data)))
    by apply Permutation_map, own_entries_perm.
  apply groupTotal_clusterGroups.
Qed.

(** ** The aggregator: minima and maxima *)

Local Open Scope Q_scope.

(** X3.  In every entry of the aggregate, for each metric that keeps a
    minimum and a maximum, both are finite, both are the value of some row
    of the cluster (0 standing in for a missing cell), and the value of
    every row of the cluster lies between them. *)
Theorem minimum_and_maximum_bracket_the_rows
    (data : list VideoRecord.t) (e : ClusterStats.t) (m : Metric)
    (lo hi : JS.number) :
  In e (sortedStats data) ->
  minimum m e = Some lo ->
  maximum m e = Some hi ->
  isFinite lo = true /\ isFinite hi = true /\
  (exists row, In row (rowsOf (ClusterStats.cluster e) data) /\
               lo = (cell m row || 0%Q)%js) /\
  (exists row, In row (rowsOf (ClusterStats.cluster e) data) /\
               hi = (cell m row || 0%Q)%js) /\
  (forall row, In row (rowsOf (ClusterStats.cluster e) data) ->
     realOf lo <= realOf (cell m row || 0%Q)%js <= realOf hi).
Proof.
  intros He Hlo Hhi. apply sortedStats_In in He. destruct He as (c & Hne & ->).
  apply minimum_statsOfGroup in Hlo. apply maximum_statsOfGroup in Hhi.
  destruct (groupOf_fields c (rowsOf c data)) as (Hc & _ & _ & Hv).
  simpl ClusterStats.cluster. rewrite Hc.
  rewrite Hv in *.
  set (l := map (fun row => (cell m row || 0%Q)%js) (rowsOf c data)) in *.
  assert (Hl : Forall (fun x => isFinite x = true) l).
  { apply List.Forall_forall. intros x Hx. apply List.in_map_iff in Hx.
    destruct Hx as (row & <- & _). apply cell_or_finite. }
  assert (Hnl : l <> []).
  { unfold l. destruct (rowsOf c data); [congruence | discriminate]. }
  destruct (Math_min_finite l Hnl Hl) as (qlo & Eqlo & Hlo_in & Hlo_le).
  destruct (Math_max_finite l Hnl Hl) as (qhi & Eqhi & Hhi_in & Hhi_ge).
  rewrite Eqlo in Hlo. rewrite Eqhi in Hhi. subst lo hi.
  simpl. split; [reflexivity|]. split; [reflexivity|]. split; [|split].
  - apply List.in_map_iff in Hlo_in. destruct Hlo_in as (row & E & Hrow).
    exists row. split; [exact Hrow | now rewrite E].
  - apply List.in_map_iff in Hhi_in. destruct Hhi_in as (row & E & Hrow).
    exists row. split; [exact Hrow | now rewrite E].
  - intros row Hrow.
    assert (Hin : In (cell m row || 0%Q)%js l)
      by exact (List.in_map (fun r => (cell m r || 0%Q)%js) _ row Hrow).
    rewrite List.Forall_forall in Hl.
    rewrite (finite_realOf _ (Hl _ Hin)) in Hin. split; auto.
Qed.

Local Open Scope Z_scope.

(** ** The aggregator: the order of the rows *)

Lemma sorted_lt_unique (l l' : list Z) :
  StronglySorted Z.lt l -> StronglySorted Z.lt l' ->
  (forall x, In x l <-> In x l') -> l = l'.
Proof.
  intros Hl. revert l'. induction Hl as [|x l Hs IH Hx]; intros l' Hl' Hmem.
  - destruct l' as [|y l']; [reflexivity|].
    exfalso. apply (proj2 (Hmem y)). now left.
  - destruct Hl' as [|y l' Hs' Hy].
    + exfalso. apply (proj1 (Hmem x)). now left.
    + rewrite List.Forall_forall in Hx, Hy.
      assert (Exy : x = y).
      { destruct (proj1 (Hmem x) (or_introl eq_refl)) as [E|Hin]; [now subst|].
        destruct (proj2 (Hmem y) (or_introl eq_refl)) as [E|Hin']; [now subst|].
        specialize (Hx y Hin'). specialize (Hy x Hin). lia. }
      subst y. f_equal. apply IH; [exact Hs'|].
      intros z. split; intros Hz.
      * destruct (proj1 (Hmem z) (or_intror Hz)) as [E|Hin]; [|exact Hin].
        specialize (Hx z Hz). lia.
      * destruct (proj2 (Hmem z) (or_intror Hz)) as [E|Hin]; [|exact Hin].
        specialize (Hy z Hz). lia.
Qed.

Lemma sortedStats_keys_ascending (data : list VideoRecord.t) :
  Forall (fun row => Label.parsed_as_number (VideoRecord.cluster row) = true) data ->
  StronglySorted Z.lt (map ClusterStats.cluster (sortedStats data)).
Proof.
  intros H. now apply (sorted_keys ClusterStats.cluster), sortedStats_ascending.
Qed.

Lemma sortedStats_keys_perm (data data' : list VideoRecord.t) :
  Permutation data data' ->
  Permutation (map ClusterStats.cluster (sortedStats data))
    (map ClusterStats.cluster (sortedStats data')).
Proof.
  intros Hp. apply Permutation.NoDup_Permutation; try apply sortedStats_clusters.
  intros c. rewrite !sortedStats_covers. split; apply Permutation_in.
  - now apply Permutation_map.
  - now apply Permutation_map, Permutation_sym.
Qed.

Lemma rowsOf_perm (c : Z) (data data' : list VideoRecord.t) :
  Permutation data data' -> Permutation (rowsOf c data) (rowsOf c data').
Proof.
  unfold rowsOf. induction 1 as [|x l l' _ IH|x y l|l l' l'' _ IH1 _ IH2]; simpl.
  - constructor.
  - destruct (VideoRecord.cluster x =? c); [now constructor | exact IH].
  - destruct (VideoRecord.cluster x =? c), (VideoRecord.cluster y =? c);
      try reflexivity. apply perm_swap.
  - now transitivity (List.filter (fun row => VideoRecord.cluster row =? c) l').
Qed.

Lemma sortedStats_sizes (data : list VideoRecord.t) :
  clusterSizes (sortedStats data)
  = map (fun c => (c, length (rowsOf c data)))
      (map ClusterStats.cluster (sortedStats data)).
Proof.
  unfold clusterSizes. rewrite List.map_map. apply List.map_ext_in.
  intros e He. apply sortedStats_In in He. destruct He as (c & _ & ->).
  destruct (groupOf_fields c (rowsOf c data)) as (Hc & Hn & _).
  simpl. now rewrite Hc, Hn.
Qed.

Local Open Scope Q_scope.

Lemma Math_min_perm (l l' : list JS.number) :
  l <> [] -> Forall (fun x => isFinite x = true) l -> Permutation l l' ->
  isFinite (JS.Math_min l) = true /\ isFinite (JS.Math_min l') = true /\
  realOf (JS.Math_min l) == realOf (JS.Math_min l').
Proof.
  intros Hne Hl Hp.
  assert (Hne' : l' <> []).
  { intros ->. apply Permutation_sym, Permutation_nil in Hp. congruence. }
  assert (Hl' : Forall (fun x => isFinite x = true) l').
  { rewrite List.Forall_forall in Hl |- *. intros x Hx. apply Hl.
    now apply (Permutation_in _ (Permutation_sym Hp)). }
  destruct (Math_min_finite l Hne Hl) as (q & -> & Hin & Hle).
  destruct (Math_min_finite l' Hne' Hl') as (q' & -> & Hin' & Hle').
  simpl. repeat split. apply Qle_antisym.
  - apply Hle. now apply (Permutation_in _ (Permutation_sym Hp)).
  - apply Hle'. now apply (Permutation_in _ Hp).
Qed.

Lemma Math_max_perm (l l' : list JS.number) :
  l <> [] -> Forall (fun x => isFinite x = true) l -> Permutation l l' ->
  isFinite (JS.Math_max l) = true /\ isFinite (JS.Math_max l') = true /\
  realOf (JS.Math_max l) == realOf (JS.Math_max l').
Proof.
  intros Hne Hl Hp.
  assert (Hne' : l' <> []).
  { intros ->. apply Permutation_sym, Permutation_nil in Hp. congruence. }
  assert (Hl' : Forall (fun x => isFinite x = true) l').
  { rewrite List.Forall_forall in Hl |- *. intros x Hx. apply Hl.
    now apply (Permutation_in _ (Permutation_sym Hp)). }
  destruct (Math_max_finite l Hne Hl) as (q & -> & Hin & Hge).
  destruct (Math_max_finite l' Hne' Hl') as (q' & -> & Hin' & Hge').
  simpl. repeat split. apply Qle_antisym.
  - apply Hge'. now apply (Permutation_in _ Hp).
  - apply Hge. now apply (Permutation_in _ (Permutation_sym Hp)).
Qed.

(** X4.  Reordering the rows of the table changes neither the cluster ids
    of the aggregate nor the row counts, and the entries of one cluster
    keep the same minimum and maximum for every metric that has them.
    When every label is one the parser yields as a number, the order of
    the entries does not change either. *)
Theorem aggregate_ignores_row_order (data data' : list VideoRecord.t) :
  Permutation data data' ->
  Permutation (clusterSizes (sortedStats data)) (clusterSizes (sortedStats data')) /\
  (Forall (fun row => Label.parsed_as_number (VideoRecord.cluster row) = true) data ->
   clusterSizes (sortedStats data) = clusterSizes (sortedStats data')) /\
  forall e e' m,
    In e (sortedStats data) -> In e' (sortedStats data') ->
    ClusterStats.cluster e = ClusterStats.cluster e' ->
    (forall x x', minimum m e = Some x -> minimum m e' = Some x' ->
                  realOf x == realOf x') /\
    (forall x x', maximum m e = Some x -> maximum m e' = Some x' ->
                  realOf x == realOf x').
Proof.
  intros Hp.
  assert (Hsize : forall keys,
            map (fun c => (c, length (rowsOf c data))) keys
            = map (fun c => (c, length (rowsOf c data'))) keys).
  { intros keys. apply List.map_ext. intros c. f_equal.
    apply Permutation_length, rowsOf_perm, Hp. }
  split; [|split].
  - rewrite !sortedStats_sizes, Hsize.
    apply Permutation_map, sortedStats_keys_perm, Hp.
  - intros Hnum. rewrite !sortedStats_sizes, Hsize. f_equal.
    assert (Hnum' : Forall (fun row => Label.parsed_as_number (VideoRecord.cluster row) = true)
                      data').
    { rewrite List.Forall_forall in Hnum |- *. intros row Hrow. apply Hnum.
      now apply (Permutation_in _ (Permutation_sym Hp)). }
    apply sorted_lt_unique; try now apply sortedStats_keys_ascending.
    intros c. split; apply Permutation_in.
    + now apply sortedStats_keys_perm.
    + now apply sortedStats_keys_perm, Permutation_sym.
  - intros e e' m He He' Hc.
    apply sortedStats_In in He. destruct He as (c & Hne & ->).
    apply sortedStats_In in He'. destruct He' as (c' & Hne' & ->).
    destruct (groupOf_fields c (rowsOf c data)) as (Hk & _ & _ & Hv).
    destruct (groupOf_fields c' (rowsOf c' data')) as (Hk' & _ & _ & Hv').
    simpl in Hc. rewrite Hk, Hk' in Hc. subst c'.
    set (l := values m (groupOf c (rowsOf c data))).
    set (l' := values m (groupOf c (rowsOf c data'))).
    assert (Hl : Forall (fun x => isFinite x = true) l).
    { unfold l. rewrite Hv. apply List.Forall_forall. intros x Hx.
      apply List.in_map_iff in Hx. destruct Hx as (row & <- & _).
      apply cell_or_finite. }
    assert (Hnl : l <> []).
    { unfold l. rewrite Hv. destruct (rowsOf c data); [congruence | discriminate]. }
    assert (Hpl : Permutation l l').
    { unfold l, l'. rewrite Hv, Hv'. apply Permutation_map, rowsOf_perm, Hp. }
    split; intros x x' Hx Hx'.
    + apply minimum_statsOfGroup in Hx, Hx'. subst x x'.
      apply (Math_min_perm l l' Hnl Hl Hpl).
    + apply maximum_statsOfGroup in Hx, Hx'. subst x x'.
      apply (Math_max_perm l l' Hnl Hl Hpl).
Qed.

Local Open Scope Z_scope.

(** ** Radar data and suggestions at the edges *)

Lemma getRadarData_loaded (s : State) (cs : list ClusterStats.t) (e : ClusterStats.t) :
  clusterStats s = Some cs ->
  getRadarData s e
  = map (fun m => {| RadarPoint.metric := metricName m;
                     RadarPoint.value :=
                       normalize (average m e) (map (average m) cs) |})
      [Motion; CutRate; VisualDensity; AudioVolume; AudioVariance].
Proof. intros Hcs. unfold getRadarData. now rewrite Hcs. Qed.

Lemma normalize_constant (v : JS.number) (l : list JS.number) :
  l <> [] -> Forall (fun x => isFinite x = true) l ->
  (forall x y, In x l -> In y l -> (realOf x == realOf y)%Q) ->
  normalize v l = JS.Finite 50.
Proof.
  intros Hne Hl Hall.
  destruct (Math_min_finite l Hne Hl) as (lo & Hlo & Hlo_in & _).
  destruct (Math_max_finite l Hne Hl) as (hi & Hhi & Hhi_in & _).
  unfold normalize. rewrite Hlo, Hhi. simpl.
  replace (Qeq_bool hi lo) with true; [reflexivity|].
  symmetry. apply Qeq_bool_iff. apply (Hall _ _ Hhi_in Hlo_in).
Qed.

Lemma normalize_nothing (v : JS.number) : normalize v [] = JS.NaN.
Proof. destruct v; reflexivity. Qed.

(** X5.  When every metric has the same average in all loaded clusters
    (in particular when a single cluster is loaded), every radar value of
    an entry is exactly 50 and the suggestion for it is the default:
    text-driven with low confidence. *)
Theorem constant_metrics_give_the_default_suggestion
    (s : State) (cs : list ClusterStats.t) (e : ClusterStats.t) :
  clusterStats s = Some cs ->
  Forall finiteStats cs ->
  In e cs ->
  (forall m t, In t cs -> (realOf (average m t) == realOf (average m e))%Q) ->
  (forall m, radarValue m (getRadarData s e) = Some (JS.Finite 50)) /\
  suggestApproach s e = Suggestion rule6.
Proof.
  intros Hcs Hfin He Hall.
  assert (Hn : forall m, normalize (average m e) (map (average m) cs) = JS.Finite 50).
  { intros m. apply normalize_constant.
    - destruct cs; [inversion He | discriminate].
    - rewrite List.Forall_forall in Hfin |- *. intros x Hx.
      apply List.in_map_iff in Hx. destruct Hx as (t & <- & Ht). apply (Hfin t Ht).
    - intros x y Hx Hy. apply List.in_map_iff in Hx, Hy.
      destruct Hx as (t & <- & Ht). destruct Hy as (t' & <- & Ht').
      rewrite (Hall m t Ht), (Hall m t' Ht'). reflexivity. }
  split.
  - intros m. rewrite (radarValue_getRadarData s cs e m Hcs). now rewrite Hn.
  - unfold suggestApproach. rewrite Hcs, (getRadarData_loaded s cs e Hcs).
    cbn [map]. rewrite !Hn. reflexivity.
Qed.

(** X6.  With an empty table loaded, [getRadarData] returns five points
    whose value is [NaN] (the minimum of no value is [Infinity], the
    maximum [-Infinity]), not an empty list, and the suggestion for any
    entry is the default. *)
Theorem empty_table_gives_NaN_radar_values (s : State) (stats : ClusterStats.t) :
  clusterStats s = Some [] ->
  length (getRadarData s stats) = 5%nat /\
  (forall m, radarValue m (getRadarData s stats) = Some JS.NaN) /\
  suggestApproach s stats = Suggestion rule6.
Proof.
  intros Hcs.
  assert (Hn : forall m, normalize (average m stats) (map (average m) []) = JS.NaN)
    by (intros m; apply normalize_nothing).
  split; [|split].
  - now rewrite (getRadarData_loaded s [] stats Hcs).
  - intros m. rewrite (radarValue_getRadarData s [] stats m Hcs). now rewrite Hn.
  - unfold suggestApproach. rewrite Hcs, (getRadarData_loaded s [] stats Hcs).
    cbn [map]. rewrite !Hn. reflexivity.
Qed.

Lemma gtb_weaken (x : JS.number) (a b : Q) :
  (b <= a)%Q -> (x >? a)%js = true -> (x >? b)%js = true.
Proof.
  intros Hab. destruct x as [q| | |]; simpl; try congruence.
  rewrite !Qltb_lt. intros H. now apply Qle_lt_trans with a.
Qed.

Lemma ltb_excludes_gtb (x : JS.number) (a b : Q) :
  (a <= b)%Q -> (x <? a)%js = true -> (x >? b)%js = false.
Proof.
  intros Hab. destruct x as [q| | |]; simpl; try congruence.
  rewrite Qltb_lt, Qltb_ge. intros H.
  apply Qlt_le_weak. now apply Qlt_le_trans with a.
Qed.

(** X7.  What a suggestion tells about the radar values: motion-focused
    is only suggested when motion is above 60 and image-conditioned only
    when visual density is above 50; the confidence is high exactly when
    motion and cut rate are both above 60 or visual density is above 70;
    a visual density above 70 never yields text-driven; and low confidence
    means that neither motion, visual density nor an audio value is above
    70. *)
Theorem suggestion_reflects_the_radar_values (m : Metrics.t) :
  let r := suggestFromMetrics m in
  (ApproachSuggestion.approach r = motion_focused ->
   (Metrics.motion m >? 60%Q)%js = true) /\
  (ApproachSuggestion.approach r = image_conditioned ->
   (Metrics.visualDensity m >? 50%Q)%js = true) /\
  (ApproachSuggestion.confidence r = high <->
   ((Metrics.motion m >? 60%Q)%js = true /\ (Metrics.cutRate m >? 60%Q)%js = true)
   \/ (Metrics.visualDensity m >? 70%Q)%js = true) /\
  ((Metrics.visualDensity m >? 70%Q)%js = true ->
   ApproachSuggestion.approach r <> text_driven) /\
  (ApproachSuggestion.confidence r = low ->
   (Metrics.motion m >? 70%Q)%js = false /\
   (Metrics.visualDensity m >? 70%Q)%js = false /\
   (Metrics.audioVariance m >? 70%Q)%js = false /\
   (Metrics.audioVolume m >? 70%Q)%js = false).
Proof.
  destruct m as [motion cutRate visualDensity audioVolume audioVariance].
  cbn [Metrics.motion Metrics.cutRate Metrics.visualDensity
       Metrics.audioVolume Metrics.audioVariance].
  pose proof (gtb_weaken motion 70 60 ltac:(discriminate)) as Hm.
  pose proof (gtb_weaken visualDensity 70 50 ltac:(discriminate)) as Hv.
  unfold suggestFromMetrics.
  destruct (motion >? 60%Q)%js, (cutRate >? 60%Q)%js,
    (visualDensity >? 70%Q)%js, (visualDensity >? 50%Q)%js,
    (motion <? 40%Q)%js, (motion >? 70%Q)%js,
    (audioVariance >? 70%Q)%js, (audioVolume >? 70%Q)%js;
    cbn; repeat split; intros; try discriminate; try congruence; auto;
    try (exfalso; intuition congruence); intuition congruence.
Qed.

(** ** Characteristic labels *)

Lemma Array_join_nonempty (separator x : string) (arr : list string) :
  x <> EmptyString -> Array_join separator (x :: arr) <> EmptyString.
Proof.
  intros Hx. destruct x as [|c x]; [congruence|].
  destruct arr; simpl; discriminate.
Qed.

(** X8.  The label of a cluster always starts with one motion tag and one
    pacing tag, followed by at most one density tag and then at most one
    audio tag, so it has between two and four tags and is never empty;
    for a missing entry the label is the empty string. *)
Theorem characteristics_shape (separator : string) (stats : ClusterStats.t) :
  (exists motion pacing density audio,
     characteristics stats = motion :: pacing :: density ++ audio /\
     In motion ["High Motion"; "Low Motion"; "Medium Motion"]%string /\
     In pacing ["Fast Cuts"; "Slow Cuts"; "Medium Pacing"]%string /\
     In density [["Visually Dense"]; ["Visually Simple"]; []]%string /\
     In audio [["Loud Audio"]; ["Quiet Audio"]; []]%string) /\
  (2 <= length (characteristics stats) <= 4)%nat /\
  getClusterCharacteristics separator (Some stats) <> EmptyString /\
  getClusterCharacteristics separator None = EmptyString.
Proof.
  unfold getClusterCharacteristics, characteristics.
  destruct (ClusterStats.avg_motion stats >? 0.5%Q)%js,
    (ClusterStats.avg_motion stats <? 0.2%Q)%js,
    (ClusterStats.avg_cut_rate stats >? 120%Q)%js,
    (ClusterStats.avg_cut_rate stats <? 30%Q)%js,
    (ClusterStats.avg_visual_density stats >? 0.6%Q)%js,
    (ClusterStats.avg_visual_density stats <? 0.3%Q)%js,
    (ClusterStats.avg_audio_rms_mean stats >? 0.5%Q)%js,
    (ClusterStats.avg_audio_rms_mean stats <? 0.2%Q)%js;
    (split;
       [match goal with
        | |- exists motion pacing density audio,
               ((([] ++ [?x]) ++ [?y]) ++ ?d) ++ ?a = _ /\ _ =>
            exists x, y, d, a; split; [reflexivity | simpl; tauto]
        end|]);
    (split; [simpl; lia|]);
    (split; [apply Array_join_nonempty; discriminate | reflexivity]).
Qed.

Lemma characteristics_In (stats : ClusterStats.t) (t : string) :
  In t (characteristics stats) <->
  t = (if (ClusterStats.avg_motion stats >? 0.5%Q)%js then "High Motion"
       else if (ClusterStats.avg_motion stats <? 0.2%Q)%js then "Low Motion"
       else "Medium Motion")%string \/
  t = (if (ClusterStats.avg_cut_rate stats >? 120%Q)%js then "Fast Cuts"
       else if (ClusterStats.avg_cut_rate stats <? 30%Q)%js then "Slow Cuts"
       else "Medium Pacing")%string \/
  In t (if (ClusterStats.avg_visual_density stats >? 0.6%Q)%js then ["Visually Dense"]
        else if (ClusterStats.avg_visual_density stats <? 0.3%Q)%js then ["Visually Simple"]
        else [])%string \/
  In t (if (ClusterStats.avg_audio_rms_mean stats >? 0.5%Q)%js then ["Loud Audio"]
        else if (ClusterStats.avg_audio_rms_mean stats <? 0.2%Q)%js then ["Quiet Audio"]
        else [])%string.
Proof.
  unfold characteristics. rewrite !List.in_app_iff. simpl.
  intuition congruence.
Qed.

Ltac decide_hyp_ifs :=
  repeat match goal with
    | H : context [if ?b then _ else _] |- _ => destruct b eqn:?
    end.

Ltac decide_goal_ifs :=
  repeat match goal with
    | |- context [if ?b then _ else _] => destruct b eqn:?
    end.

Ltac use_orders :=
  repeat match goal with
    | H : ?P -> _, E : ?P |- _ => specialize (H E)
    | H : true = true -> _ |- _ => specialize (H eq_refl)
    | H : false = false -> _ |- _ => specialize (H eq_refl)
    end.

(** X9.  The label and a spec built from the same entry agree: the label
    has "Fast Cuts" exactly when the pacing is "fast", "Visually Dense"
    exactly when the visual complexity is "high", and "Loud Audio" exactly
    when the volume level is "high"; a "dynamic" camera movement comes
    with "High Motion"; and "Low Motion", "Slow Cuts", "Visually Simple"
    and "Quiet Audio" come with "static", "slow", "low" complexity and
    "low" volume. *)
Theorem labels_agree_with_the_spec
    (stats : ClusterStats.t) (c : Z) (a : Approach) (tokens : list string) :
  let tags := characteristics stats in
  let components := GenerationSpec.base_prompt_components (spec c stats a tokens) in
  let visual := GenerationSpec.visual_style components in
  let motion := GenerationSpec.motion_profile components in
  let audio := GenerationSpec.audio_profile components in
  (In "Fast Cuts"%string tags <-> GenerationSpec.pacing motion = "fast"%string) /\
  (In "Visually Dense"%string tags <->
   GenerationSpec.visual_complexity visual = "high"%string) /\
  (In "Loud Audio"%string tags <-> GenerationSpec.volume_level audio = "high"%string) /\
  (GenerationSpec.camera_movement motion = "dynamic"%string ->
   In "High Motion"%string tags) /\
  (In "Low Motion"%string tags ->
   GenerationSpec.camera_movement motion = "static"%string) /\
  (In "Slow Cuts"%string tags -> GenerationSpec.pacing motion = "slow"%string) /\
  (In "Visually Simple"%string tags ->
   GenerationSpec.visual_complexity visual = "low"%string) /\
  (In "Quiet Audio"%string tags -> GenerationSpec.volume_level audio = "low"%string).
Proof.
  cbn zeta.
  cbn [spec GenerationSpec.base_prompt_components GenerationSpec.visual_style
       GenerationSpec.motion_profile GenerationSpec.audio_profile
       GenerationSpec.pacing GenerationSpec.visual_complexity
       GenerationSpec.volume_level GenerationSpec.camera_movement].
  rewrite !characteristics_In.
  pose proof (gtb_weaken (ClusterStats.avg_motion stats) 0.6 0.5 ltac:(discriminate)) as M1.
  pose proof (ltb_excludes_gtb (ClusterStats.avg_motion stats) 0.2 0.3 ltac:(discriminate)) as M2.
  pose proof (gtb_weaken (ClusterStats.avg_motion stats) 0.6 0.3 ltac:(discriminate)) as M4.
  pose proof (ltb_excludes_gtb (ClusterStats.avg_cut_rate stats) 30 60 ltac:(discriminate)) as P1.
  pose proof (ltb_excludes_gtb (ClusterStats.avg_cut_rate stats) 30 120 ltac:(discriminate)) as P2.
  pose proof (gtb_weaken (ClusterStats.avg_cut_rate stats) 120 60 ltac:(discriminate)) as P3.
  pose proof (ltb_excludes_gtb (ClusterStats.avg_visual_density stats) 0.3 0.3 ltac:(discriminate)) as D1.
  pose proof (ltb_excludes_gtb (ClusterStats.avg_visual_density stats) 0.3 0.6 ltac:(discriminate)) as D2.
  pose proof (gtb_weaken (ClusterStats.avg_visual_density stats) 0.6 0.3 ltac:(discriminate)) as D3.
  pose proof (ltb_excludes_gtb (ClusterStats.avg_audio_rms_mean stats) 0.2 0.25 ltac:(discriminate)) as A1.
  pose proof (ltb_excludes_gtb (ClusterStats.avg_audio_rms_mean stats) 0.2 0.5 ltac:(discriminate)) as A2.
  pose proof (gtb_weaken (ClusterStats.avg_audio_rms_mean stats) 0.5 0.25 ltac:(discriminate)) as A3.
  repeat split; intros H;
    try (destruct H as [H|[H|[H|H]]]);
    decide_hyp_ifs; cbn [In] in H;
    try discriminate H;
    try (destruct H as [H|[]]; try discriminate H);
    try contradiction;
    use_orders;
    repeat match goal with
      | E : ?b = _ |- context [if ?b then _ else _] => rewrite E
      end;
    cbn [In]; auto 6;
    decide_goal_ifs; use_orders; cbn [In]; auto 6; congruence.
Qed.

(** ** Labels and rounded numbers of a spec *)

Local Open Scope Q_scope.

Lemma round_at_least (x : Q) (n : Z) :
  inject_Z n <= x -> (n <= Qfloor (x + 0.5))%Z.
Proof.
  intros H. rewrite <- (Qfloor_Z n). apply Qfloor_resp_le. lra.
Qed.

Lemma round_at_most (x : Q) (n : Z) :
  x <= inject_Z n -> (Qfloor (x + 0.5) <= n)%Z.
Proof.
  intros H.
  assert (L : inject_Z (Qfloor (x + 0.5)) < inject_Z (n + 1)).
  { pose proof (Qfloor_le (x + 0.5)) as F.
    rewrite inject_Z_plus. change (inject_Z 1) with 1. lra. }
  rewrite <- Zlt_Qlt in L. lia.
Qed.

Lemma Int_injective (a b : Z) : JS.Int a = JS.Int b -> a = b.
Proof. congruence. Qed.

(** X10.  In a spec the labels never contradict the rounded numbers next
    to them: pacing "fast" comes with at least 120 cuts per minute,
    "medium" with 60 to 120, "slow" with at most 60; camera movement
    "dynamic" comes with a motion intensity of at least 6, "moderate" with
    3 to 6, "static" with at most 3 (an infinite or undefined average
    aside); visual complexity "high" comes with detail level "detailed"
    and "low" with "simplified". *)
Theorem spec_labels_match_rounded_numbers
    (c : Z) (stats : ClusterStats.t) (a : Approach) (tokens : list string) :
  let components := GenerationSpec.base_prompt_components (spec c stats a tokens) in
  let visual := GenerationSpec.visual_style components in
  let motion := GenerationSpec.motion_profile components in
  (forall z, GenerationSpec.cuts_per_minute motion = JS.Int z ->
     (GenerationSpec.pacing motion = "fast"%string -> (120 <= z)%Z) /\
     (GenerationSpec.pacing motion = "medium"%string -> (60 <= z <= 120)%Z) /\
     (GenerationSpec.pacing motion = "slow"%string -> (z <= 60)%Z)) /\
  (forall z, GenerationSpec.motion_intensity motion = JS.Int z ->
     (GenerationSpec.camera_movement motion = "dynamic"%string -> (6 <= z)%Z) /\
     (GenerationSpec.camera_movement motion = "moderate"%string -> (3 <= z <= 6)%Z) /\
     (GenerationSpec.camera_movement motion = "static"%string -> (z <= 3)%Z)) /\
  (GenerationSpec.visual_complexity visual = "high"%string ->
   GenerationSpec.detail_level visual = "detailed"%string) /\
  (GenerationSpec.visual_complexity visual = "low"%string ->
   GenerationSpec.detail_level visual = "simplified"%string).
Proof.
  cbn zeta.
  cbn [spec GenerationSpec.base_prompt_components GenerationSpec.visual_style
       GenerationSpec.motion_profile GenerationSpec.pacing
       GenerationSpec.cuts_per_minute GenerationSpec.motion_intensity
       GenerationSpec.camera_movement GenerationSpec.visual_complexity
       GenerationSpec.detail_level].
  split; [|split; [|split]].
  - intros z. destruct (ClusterStats.avg_cut_rate stats) as [x| | |];
      cbn [JS.Math_round JS.mul JS.gtb JS.ltb]; try discriminate.
    intros Hz. apply Int_injective in Hz. subst z.
    destruct (JS.Qltb 120 x) eqn:E1; [|destruct (JS.Qltb 60 x) eqn:E2];
      repeat split; intros; try discriminate.
    + apply Qltb_lt in E1. apply round_at_least. unfold inject_Z. lra.
    + apply Qltb_lt in E2. apply round_at_least. unfold inject_Z. lra.
    + apply Qltb_ge in E1. apply round_at_most. unfold inject_Z. lra.
    + apply Qltb_ge in E2. apply round_at_most. unfold inject_Z. lra.
  - intros z. destruct (ClusterStats.avg_motion stats) as [x| | |];
      cbn [JS.Math_round JS.mul JS.gtb JS.ltb]; try discriminate.
    destruct (overflow_cases (x * 10)) as [[_ H]|[[_ H]|[_ H]]]; rewrite H;
      cbn [JS.Math_round]; try discriminate.
    intros Hz. apply Int_injective in Hz. subst z.
    destruct (JS.Qltb 0.6 x) eqn:E1; [|destruct (JS.Qltb 0.3 x) eqn:E2];
      repeat split; intros; try discriminate.
    + apply Qltb_lt in E1. apply round_at_least. unfold inject_Z. lra.
    + apply Qltb_lt in E2. apply round_at_least. unfold inject_Z. lra.
    + apply Qltb_ge in E1. apply round_at_most. unfold inject_Z. lra.
    + apply Qltb_ge in E2. apply round_at_most. unfold inject_Z. lra.
  - pose proof (gtb_weaken (ClusterStats.avg_visual_density stats) 0.6 0.5
                  ltac:(discriminate)) as H.
    destruct (ClusterStats.avg_visual_density stats >? 0.6%Q)%js eqn:E;
      [now rewrite (H eq_refl)|].
    destruct (ClusterStats.avg_visual_density stats >? 0.3%Q)%js; discriminate.
  - pose proof (gtb_weaken (ClusterStats.avg_visual_density stats) 0.5 0.3
                  ltac:(discriminate)) as H.
    destruct (ClusterStats.avg_visual_density stats >? 0.6%Q)%js eqn:E;
      [discriminate|].
    destruct (ClusterStats.avg_visual_density stats >? 0.3%Q)%js eqn:E3;
      [discriminate|].
    destruct (ClusterStats.avg_visual_density stats >? 0.5%Q)%js eqn:E5;
      [|reflexivity].
    specialize (H eq_refl). discriminate.
Qed.

Local Open Scope Z_scope.

(** ** The trend-token editor *)

Lemma filter_index_without {A} (l : list A) (index k : nat) :
  JS.filter_index (fun i => negb (i =? k + index)%nat) k l = without index l.
Proof.
  revert index k. induction l as [|x l IH]; intros index k; simpl.
  - unfold without. now destruct index.
  - destruct index as [|index].
    + rewrite Nat.add_0_r, Nat.eqb_refl. simpl. unfold without. simpl.
      clear IH. revert k.
      assert (H : forall j k, (k < j)%nat ->
                  JS.filter_index (fun i => negb (i =? k)%nat) j l = l).
      { induction l as [|y l IH]; intros j k Hjk; simpl; [reflexivity|].
        destruct (j =? k)%nat eqn:E; [apply Nat.eqb_eq in E; lia|].
        simpl. f_equal. apply IH. lia. }
      intros k. apply H. lia.
    + destruct (k =? k + S index)%nat eqn:E; [apply Nat.eqb_eq in E; lia|].
      simpl. unfold without. simpl. f_equal.
      replace (k + S index)%nat with (S k + index)%nat by lia.
      apply IH.
Qed.

Lemma currentTokens_removeTrendToken (cluster : Z) (index : nat) (s : State) (d : Z) :
  currentTokens (removeTrendToken cluster index s) d
  = if decide (cluster = d) then without index (currentTokens s cluster)
    else currentTokens s d.
Proof.
  unfold removeTrendToken, currentTokens at 1. simpl.
  destruct (decide (cluster = d)) as [->|Hne].
  - rewrite lookup_insert_eq. simpl. apply (filter_index_without _ index 0).
  - now rewrite lookup_insert_ne.
Qed.

Lemma addTrendToken_accepts (cluster : Z) (token : string) (s : State) :
  JS.trim token <> EmptyString ->
  (length (currentTokens s cluster) < 3)%nat ->
  ~ In (JS.trim token) (currentTokens s cluster) ->
  addTrendToken cluster token s
  = setTrendTokens
      (fun prev => <[cluster := currentTokens s cluster ++ [JS.trim token]]> prev) s.
Proof.
  intros Hne Hlen Hnew. unfold addTrendToken.
  destruct (JS.is_empty (JS.trim token)) eqn:Ee.
  - apply is_empty_true in Ee. congruence.
  - destruct (3 <=? length (currentTokens s cluster))%nat eqn:E3.
    + apply Nat.leb_le in E3. lia.
    + destruct (JS.includes (currentTokens s cluster) (JS.trim token)) eqn:Ei;
        [|reflexivity].
      apply includes_In in Ei. contradiction.
Qed.

(** X11.  Removing the token at a position of the list deletes exactly
    that entry and keeps the others in order; a position past the end
    changes no list; the token lists of the other clusters stay as they
    are. *)
Theorem removeTrendToken_deletes_one_position (cluster : Z) (index : nat) (s : State) :
  let before := currentTokens s cluster in
  let after := currentTokens (removeTrendToken cluster index s) cluster in
  after = firstn index before ++ skipn (S index) before /\
  ((index < length before)%nat -> S (length after) = length before) /\
  ((length before <= index)%nat -> after = before) /\
  forall d, d <> cluster ->
    currentTokens (removeTrendToken cluster index s) d = currentTokens s d.
Proof.
  cbn zeta. rewrite currentTokens_removeTrendToken.
  destruct (decide (cluster = cluster)) as [_|]; [|congruence].
  unfold without. split; [reflexivity|]. split; [|split].
  - intros Hlt. rewrite length_app, List.length_firstn, List.length_skipn. lia.
  - intros Hge. rewrite List.firstn_all2 by exact Hge.
    rewrite List.skipn_all2 by lia. apply app_nil_r.
  - intros d Hd. rewrite currentTokens_removeTrendToken.
    destruct (decide (cluster = d)); congruence.
Qed.

(** X12.  A token that is not empty after trimming, is not yet in the
    list and finds fewer than 3 entries is stored trimmed at the end of
    the list; removing the last position right afterwards gives back the
    list as it was. *)
Theorem add_then_remove_last_restores (cluster : Z) (token : string) (s : State) :
  JS.trim token <> EmptyString ->
  (length (currentTokens s cluster) < 3)%nat ->
  ~ In (JS.trim token) (currentTokens s cluster) ->
  let current := currentTokens s cluster in
  let added := addTrendToken cluster token s in
  currentTokens added cluster = current ++ [JS.trim token] /\
  currentTokens (removeTrendToken cluster (length current) added) cluster = current.
Proof.
  intros Hne Hlen Hnew. cbn zeta.
  rewrite (addTrendToken_accepts cluster token s Hne Hlen Hnew).
  assert (E : currentTokens
                (setTrendTokens
                   (fun prev => <[cluster := currentTokens s cluster ++ [JS.trim token]]> prev) s)
                cluster
              = currentTokens s cluster ++ [JS.trim token]).
  { unfold currentTokens at 1. simpl. now rewrite lookup_insert_eq. }
  split; [exact E|].
  rewrite currentTokens_removeTrendToken.
  destruct (decide (cluster = cluster)) as [_|]; [|congruence].
  rewrite E. unfold without.
  rewrite List.firstn_app, List.firstn_all, Nat.sub_diag. simpl.
  rewrite List.skipn_all2 by (rewrite length_app; simpl; lia).
  now rewrite !app_nil_r.
Qed.

Lemma token_operations_are_local_step (op : TokenOp) (s : State) :
  interpretationData (applyTokenOp s op) = interpretationData s /\
  clusterStats (applyTokenOp s op) = clusterStats s /\
  selectedCluster (applyTokenOp s op) = selectedCluster s /\
  generationSpecs (applyTokenOp s op) = generationSpecs s /\
  selectedApproaches (applyTokenOp s op) = selectedApproaches s.
Proof.
  destruct op as [c token|c index]; simpl.
  - unfold addTrendToken.
    destruct (JS.is_empty _); [repeat split; auto|].
    destruct (3 <=? _)%nat; [repeat split; auto|].
    destruct (JS.includes _ _); repeat split; auto.
  - unfold removeTrendToken. simpl. repeat split; auto.
Qed.

(** X13.  The token editor works on one cluster at a time: a sequence of
    add and remove operations leaves the token list of every cluster it
    does not name as it was, and never touches the loaded table, the
    aggregate, the approach choices, the spec store or the
    most-recently-built marker. *)
Theorem token_operations_are_local (ops : list TokenOp) (s : State) :
  let s' := applyTokenOps ops s in
  (forall d, Forall (fun op => opCluster op <> d) ops ->
     trendTokens s' !! d = trendTokens s !! d) /\
  interpretationData s' = interpretationData s /\
  clusterStats s' = clusterStats s /\
  selectedCluster s' = selectedCluster s /\
  generationSpecs s' = generationSpecs s /\
  selectedApproaches s' = selectedApproaches s.
Proof.
  cbn zeta. revert s. induction ops as [|op ops IH]; intros s; simpl.
  - repeat split; auto.
  - destruct (IH (applyTokenOp s op)) as (Ht & Hi & Hc & Hs & Hg & Ha).
    assert (Hstep :
      (forall d, opCluster op <> d ->
         trendTokens (applyTokenOp s op) !! d = trendTokens s !! d) /\
      interpretationData (applyTokenOp s op) = interpretationData s /\
      clusterStats (applyTokenOp s op) = clusterStats s /\
      selectedCluster (applyTokenOp s op) = selectedCluster s /\
      generationSpecs (applyTokenOp s op) = generationSpecs s /\
      selectedApproaches (applyTokenOp s op) = selectedApproaches s).
    { destruct op as [c token|c index]; simpl.
      - unfold addTrendToken.
        destruct (JS.is_empty _); [repeat split; auto|].
        destruct (3 <=? _)%nat; [repeat split; auto|].
        destruct (JS.includes _ _); [repeat split; auto|].
        simpl. repeat split; auto. intros d Hd. now apply lookup_insert_ne.
      - unfold removeTrendToken. simpl. repeat split; auto.
        intros d Hd. now apply lookup_insert_ne. }
    destruct Hstep as (Ht' & Hi' & Hc' & Hs' & Hg' & Ha').
    repeat split; try congruence.
    intros d Hd. inversion Hd as [|? ? Hop Hops]; subst.
    rewrite (Ht d Hops). now apply Ht'.
Qed.

(** ** The page: handlers behind rendered controls *)

Lemma find_button (s : State) (cs : list ClusterStats.t) (c : Z) :
  clusterStats s = Some cs ->
  JS.find (fun cb => fst cb =? c) (generateButtons s)
  = option_map (fun stats => (ClusterStats.cluster stats, generateButton s stats))
      (JS.find (fun e => ClusterStats.cluster e =? c) cs).
Proof.
  intros Hcs. unfold generateButtons. rewrite Hcs. unfold JS.find. clear Hcs.
  induction cs as [|e cs IH]; simpl; [reflexivity|].
  destruct (ClusterStats.cluster e =? c); [reflexivity | exact IH].
Qed.

Lemma find_cluster_Some (cs : list ClusterStats.t) (c : Z) (stats : ClusterStats.t) :
  JS.find (fun e => ClusterStats.cluster e =? c) cs = Some stats ->
  In stats cs /\ ClusterStats.cluster stats = c.
Proof.
  intros H. apply List.find_some in H. destruct H as [Hin E].
  now apply Z.eqb_eq in E.
Qed.

Lemma cardRendered_true (s : State) (c : Z) :
  cardRendered s c = true ->
  exists cs stats,
    clusterStats s = Some cs /\
    JS.find (fun e => ClusterStats.cluster e =? c) cs = Some stats.
Proof.
  unfold cardRendered. destruct (clusterStats s) as [cs|]; [|discriminate].
  intros H. exists cs. apply List.existsb_exists in H.
  destruct H as (e & Hin & E). unfold JS.find.
  destruct (List.find _ cs) as [stats|] eqn:F; [eauto|].
  apply (List.find_none _ _ F) in Hin. congruence.
Qed.

Lemma cardRendered_false (s : State) (cs : list ClusterStats.t) (c : Z) :
  clusterStats s = Some cs ->
  ~ In c (map ClusterStats.cluster cs) ->
  cardRendered s c = false.
Proof.
  intros Hcs Hnot. unfold cardRendered. rewrite Hcs.
  apply not_true_iff_false. intros H. apply List.existsb_exists in H.
  destruct H as (e & Hin & E). apply Z.eqb_eq in E. apply Hnot.
  rewrite <- E. now apply List.in_map.
Qed.

(** What a click on the generate button of a rendered card does. *)
Lemma handle_generate (s : State) (cs : list ClusterStats.t) (c : Z)
    (stats : ClusterStats.t) :
  clusterStats s = Some cs ->
  JS.find (fun e => ClusterStats.cluster e =? c) cs = Some stats ->
  handle (ClickGenerate c) s =
  match selectedApproaches s !! c with
  | None => Returns s
  | Some a =>
      Returns
        (setSelectedCluster (Some c)
           (setGenerationSpecs
              (fun prev => <[c := spec c stats a (currentTokens s c)]> prev) s))
  end.
Proof.
  intros Hcs Hfind. simpl. rewrite (find_button s cs c Hcs), Hfind. simpl.
  destruct (find_cluster_Some cs c stats Hfind) as [_ Hc].
  unfold click, generateButton. simpl. rewrite Hc.
  destruct (selectedApproaches s !! c) as [a|] eqn:Ha; [|reflexivity].
  rewrite (generateSpec_found s cs c stats Hcs Hfind), Ha. reflexivity.
Qed.

Lemma handle_returns (s : State) (e : Event) :
  available s e = true -> exists s', handle e s = Returns s'.
Proof.
  destruct e as [data|c a|c text|c index|c]; simpl; intros Hav; eauto.
  apply cardRendered_true in Hav. destruct Hav as (cs & stats & Hcs & Hfind).
  pose proof (handle_generate s cs c stats Hcs Hfind) as H. simpl in H.
  rewrite H. destruct (selectedApproaches s !! c); eauto.
Qed.

Lemma run_returns (events : list Event) (s : State) :
  exists s', run events s = Returns s'.
Proof.
  revert s. induction events as [|e events IH]; intros s; simpl; [eauto|].
  destruct (available s e) eqn:Hav; [|apply IH].
  destruct (handle_returns s e Hav) as (s' & ->). apply IH.
Qed.

Lemma run_reachable (events : list Event) (s s' : State) :
  reachable s -> run events s = Returns s' -> reachable s'.
Proof.
  revert s. induction events as [|e events IH]; intros s Hs; simpl.
  - now intros [= <-].
  - destruct (available s e) eqn:Hav; [|now apply IH].
    destruct (handle e s) as [s1|] eqn:Hh; [|discriminate].
    apply IH. now apply (reachable_step s s1 e).
Qed.

(** X14.  No handler behind a control that is on the page throws: every
    available event returns a state, and so does every list of events run
    from any state.  The guard is the rendering: while nothing is loaded
    no generate button is on the page, and [generateSpec] called then
    would throw. *)
Theorem page_events_never_throw (s : State) :
  (forall e, available s e = true -> exists s', handle e s = Returns s') /\
  (forall events, exists s', run events s = Returns s') /\
  (clusterStats s = None ->
   forall c, available s (ClickGenerate c) = false /\
             exists error, generateSpec c s = Throws error).
Proof.
  split; [intros e; apply handle_returns|].
  split; [intros events; apply run_returns|].
  intros Hnone c. simpl. unfold cardRendered, generateSpec. rewrite Hnone.
  split; [reflexivity | eauto].
Qed.

(** ** The page: what every reachable state satisfies *)

Lemma addTrendToken_nonempty (cluster : Z) (token : string) (s : State) :
  (forall c, Forall (fun t => t <> EmptyString) (currentTokens s c)) ->
  forall c, Forall (fun t => t <> EmptyString)
              (currentTokens (addTrendToken cluster token s) c).
Proof.
  intros H c. unfold addTrendToken.
  destruct (JS.is_empty (JS.trim token)) eqn:Ee; [apply H|].
  destruct (3 <=? length (currentTokens s cluster))%nat; [apply H|].
  destruct (JS.includes (currentTokens s cluster) (JS.trim token)); [apply H|].
  unfold currentTokens at 1. simpl.
  destruct (decide (cluster = c)) as [->|Hne].
  - rewrite lookup_insert_eq. simpl. apply Forall_app. split; [apply H|].
    constructor; [|constructor]. intros E. apply is_empty_true in E. congruence.
  - rewrite lookup_insert_ne by exact Hne. apply H.
Qed.

Lemma removeTrendToken_nonempty (cluster : Z) (index : nat) (s : State) :
  (forall c, Forall (fun t => t <> EmptyString) (currentTokens s c)) ->
  forall c, Forall (fun t => t <> EmptyString)
              (currentTokens (removeTrendToken cluster index s) c).
Proof.
  intros H c. unfold removeTrendToken, currentTokens at 1. simpl.
  destruct (decide (cluster = c)) as [->|Hne].
  - rewrite lookup_insert_eq. simpl. apply List.Forall_forall. intros x Hx.
    apply filter_index_In in Hx. specialize (H c).
    rewrite List.Forall_forall in H. now apply H.
  - rewrite lookup_insert_ne by exact Hne. apply H.
Qed.

Lemma pageInvariant_initial : pageInvariant initialState.
Proof.
  unfold pageInvariant, statsInOrder. simpl. split; [reflexivity|].
  split; [|split].
  - intros c. unfold currentTokens. simpl. rewrite lookup_empty. simpl.
    repeat split; simpl; try lia; constructor.
  - intros c g H. rewrite lookup_empty in H. discriminate.
  - discriminate.
Qed.

Lemma pageInvariant_step (s s' : State) (e : Event) :
  pageInvariant s -> available s e = true -> handle e s = Returns s' ->
  pageInvariant s'.
Proof.
  intros (Hstats & Htok & Hspec & Hsel) Hav Hh.
  destruct e as [data|c a|c text|c index|c].
  - injection Hh as <-. split; [|split; [|split]]; auto.
    unfold statsInOrder. simpl. eauto.
  - injection Hh as <-. split; [|split; [|split]]; auto.
    intros d g Hg. destruct (Hspec d g Hg) as [Hin Hap]. split; [exact Hin|].
    simpl. destruct (decide (c = d)) as [->|Hne].
    + rewrite lookup_insert_eq. eauto.
    + now rewrite lookup_insert_ne.
  - injection Hh as <-.
    destruct (token_operations_are_local_step (AddToken c text) s)
      as (Hi & Hc & Hs & Hg & Ha).
    change (applyTokenOp s (AddToken c text)) with (addTrendToken c text s) in *.
    split; [|split; [|split]].
    + unfold statsInOrder in *. now rewrite Hc, Hi.
    + intros d. split.
      * apply addTrendToken_tidy. intros d'. apply Htok.
      * apply addTrendToken_nonempty. intros d'. apply Htok.
    + intros d g. rewrite Hg, Ha. apply Hspec.
    + intros d. rewrite Hs, Hg. apply Hsel.
  - injection Hh as <-.
    destruct (token_operations_are_local_step (RemoveToken c index) s)
      as (Hi & Hc & Hs & Hg & Ha).
    change (applyTokenOp s (RemoveToken c index))
      with (removeTrendToken c index s) in *.
    split; [|split; [|split]].
    + unfold statsInOrder in *. now rewrite Hc, Hi.
    + intros d. split.
      * apply removeTrendToken_tidy. intros d'. apply Htok.
      * apply removeTrendToken_nonempty. intros d'. apply Htok.
    + intros d g. rewrite Hg, Ha. apply Hspec.
    + intros d. rewrite Hs, Hg. apply Hsel.
  - simpl in Hav. apply cardRendered_true in Hav.
    destruct Hav as (cs & stats & Hcs & Hfind).
    rewrite (handle_generate s cs c stats Hcs Hfind) in Hh.
    destruct (selectedApproaches s !! c) as [a|] eqn:Ha.
    + injection Hh as <-.
      destruct (find_cluster_Some cs c stats Hfind) as [Hin Hc].
      split; [|split; [|split]]; auto.
      * intros d g. simpl. destruct (decide (c = d)) as [->|Hne].
        -- rewrite lookup_insert_eq. intros [= <-]. split; [|now rewrite Ha].
           unfold statsInOrder in Hstats. rewrite Hcs in Hstats.
           destruct Hstats as (data & _ & ->).
           exists data, stats, a, (currentTokens s d). auto.
        -- rewrite lookup_insert_ne by exact Hne. apply Hspec.
      * intros d. simpl. intros [= <-]. rewrite lookup_insert_eq. eauto.
    + injection Hh as <-. split; [|split; [|split]]; auto.
Qed.

Lemma pageInvariant_reachable (s : State) : reachable s -> pageInvariant s.
Proof.
  induction 1 as [|s s' e _ IH Hav Hh].
  - apply pageInvariant_initial.
  - now apply (pageInvariant_step s s' e).
Qed.

Lemma sortedStats_count_positive (data : list VideoRecord.t) (e : ClusterStats.t) :
  In e (sortedStats data) -> (1 <= ClusterStats.count e)%nat.
Proof.
  intros He. apply sortedStats_In in He. destruct He as (c & Hne & ->).
  destruct (groupOf_fields c (rowsOf c data)) as (_ & Hn & _).
  simpl. rewrite Hn. destruct (rowsOf c data); [congruence | simpl; lia].
Qed.

(** X15.  In every state the page can reach, a spec stored under a
    cluster id names that id as its cluster, was built from at least one
    video, carries at most 3 trend tokens, all different, none empty and
    each trimmed, has its [enabled] flag set exactly when it has a token,
    and names one of the three approaches; an approach is still chosen for
    its cluster.  The most-recently-built marker, when set, points to a
    cluster that has a stored spec. *)
Theorem stored_specs_are_in_order (s : State) :
  reachable s ->
  (forall c g, generationSpecs s !! c = Some g ->
     let tokens := GenerationSpec.tokens (GenerationSpec.trend_tokens g) in
     GenerationSpec.cluster_id g = c /\
     (1 <= GenerationSpec.sample_count (GenerationSpec.constraints g))%nat /\
     (length tokens <= 3)%nat /\ List.NoDup tokens /\
     (forall t, In t tokens -> t <> EmptyString /\ JS.trim t = t) /\
     GenerationSpec.enabled (GenerationSpec.trend_tokens g)
     = negb (length tokens =? 0)%nat /\
     In (GenerationSpec.generation_approach g)
       (map approach_name [text_driven; image_conditioned; motion_focused]) /\
     is_Some (selectedApproaches s !! c)) /\
  (forall c, selectedCluster s = Some c -> is_Some (generationSpecs s !! c)).
Proof.
  intros Hs. destruct (pageInvariant_reachable s Hs) as (_ & _ & Hspec & Hsel).
  split; [|exact Hsel].
  intros c g Hg. destruct (Hspec c g Hg) as [Hin Hap].
  destruct Hin as (data & stats & a & tokens & Hstats & Hc & Hwf & ->).
  destruct Hwf as ((Hlen & Hnd & Htrim) & Hne).
  cbn zeta. simpl. repeat split; auto.
  - now apply (sortedStats_count_positive data).
  - rewrite List.Forall_forall in Hne. now apply Hne.
  - rewrite List.Forall_forall in Htrim. now apply Htrim.
  - now destruct tokens.
  - destruct a; simpl; auto.
Qed.

(** X16.  In every state the page can reach, the token list of every
    cluster has at most 3 entries, all different, none empty and each
    trimmed, and the aggregate on display is the aggregate of the table
    loaded last ([null] before the first upload). *)
Theorem reachable_tokens_and_aggregate (s : State) :
  reachable s ->
  (forall c, (length (currentTokens s c) <= 3)%nat /\
             List.NoDup (currentTokens s c) /\
             forall t, In t (currentTokens s c) ->
               t <> EmptyString /\ JS.trim t = t) /\
  clusterStats s = option_map sortedStats (interpretationData s).
Proof.
  intros Hs. destruct (pageInvariant_reachable s Hs) as (Hstats & Htok & _).
  split.
  - intros c. destruct (Htok c) as ((Hlen & Hnd & Htrim) & Hne).
    repeat split; auto.
    + rewrite List.Forall_forall in Hne. now apply Hne.
    + rewrite List.Forall_forall in Htrim. now apply Htrim.
  - unfold statsInOrder in Hstats.
    destruct (clusterStats s) as [cs|].
    + destruct Hstats as (data & -> & ->). reflexivity.
    + now rewrite Hstats.
Qed.

Lemma handle_keeps_entries (s s' : State) (e : Event) :
  available s e = true -> handle e s = Returns s' ->
  (forall c, is_Some (generationSpecs s !! c) -> is_Some (generationSpecs s' !! c)) /\
  (forall c, is_Some (selectedApproaches s !! c) ->
             is_Some (selectedApproaches s' !! c)).
Proof.
  intros Hav Hh. destruct e as [data|c a|c text|c index|c].
  - injection Hh as <-. split; auto.
  - injection Hh as <-. split; [auto|]. intros d Hd. simpl.
    destruct (decide (c = d)) as [->|Hne].
    + rewrite lookup_insert_eq. eauto.
    + now rewrite lookup_insert_ne.
  - injection Hh as <-.
    destruct (token_operations_are_local_step (AddToken c text) s)
      as (_ & _ & _ & Hg & Ha).
    change (applyTokenOp s (AddToken c text)) with (addTrendToken c text s) in *.
    rewrite Hg, Ha. split; auto.
  - injection Hh as <-.
    destruct (token_operations_are_local_step (RemoveToken c index) s)
      as (_ & _ & _ & Hg & Ha).
    change (applyTokenOp s (RemoveToken c index))
      with (removeTrendToken c index s) in *.
    rewrite Hg, Ha. split; auto.
  - simpl in Hav. apply cardRendered_true in Hav.
    destruct Hav as (cs & stats & Hcs & Hfind).
    rewrite (handle_generate s cs c stats Hcs Hfind) in Hh.
    destruct (selectedApproaches s !! c) as [a|] eqn:Ha.
    + injection Hh as <-. split; [|auto]. intros d Hd. simpl.
      destruct (decide (c = d)) as [->|Hne].
      * rewrite lookup_insert_eq. eauto.
      * now rewrite lookup_insert_ne.
    + injection Hh as <-. split; auto.
Qed.

(** X17.  Nothing on the page deletes a spec or clears an approach:
    whatever events are run from a state, every cluster that had a stored
    spec still has one afterwards (possibly rebuilt), and every cluster
    that had an approach chosen still has one (possibly changed). *)
Theorem specs_and_approaches_are_never_removed (events : list Event) (s : State) :
  exists s',
    run events s = Returns s' /\
    (forall c, is_Some (generationSpecs s !! c) ->
               is_Some (generationSpecs s' !! c)) /\
    (forall c, is_Some (selectedApproaches s !! c) ->
               is_Some (selectedApproaches s' !! c)).
Proof.
  revert s. induction events as [|e events IH]; intros s; simpl.
  - exists s. auto.
  - destruct (available s e) eqn:Hav; [|apply IH].
    destruct (handle_returns s e Hav) as (s1 & Hh). rewrite Hh.
    destruct (handle_keeps_entries s s1 e Hav Hh) as [Hg Ha].
    destruct (IH s1) as (s' & Hrun & Hg' & Ha').
    exists s'. split; [exact Hrun|]. split; auto.
Qed.

(** X18.  Loading a table that no longer has a cluster leaves the spec
    stored for that cluster, and the marker, as they were; the cluster has
    no card any more, so its spec cannot be rebuilt, and [generateSpec]
    called for it returns without effect. *)
Theorem reupload_keeps_specs_of_vanished_clusters
    (s : State) (data : list VideoRecord.t) (c : Z) :
  ~ In c (map VideoRecord.cluster data) ->
  let s' := handleFileUpload data s in
  generationSpecs s' = generationSpecs s /\
  selectedCluster s' = selectedCluster s /\
  selectedApproaches s' = selectedApproaches s /\
  trendTokens s' = trendTokens s /\
  clusterStats s' = Some (sortedStats data) /\
  available s' (ClickGenerate c) = false /\
  generateSpec c s' = Returns s'.
Proof.
  intros Hnot. cbn zeta.
  assert (Hnot' : ~ In c (map ClusterStats.cluster (sortedStats data)))
    by now rewrite sortedStats_covers.
  repeat split.
  - simpl. now apply (cardRendered_false _ (sortedStats data)).
  - unfold generateSpec. simpl.
    now rewrite (find_cluster_None (sortedStats data) c Hnot').
Qed.

(** X19.  Choosing an approach on the card of a loaded cluster and then
    clicking its generate button stores, under the cluster id, the spec
    built from the cluster's entry, the approach just chosen (whatever was
    chosen before) and the cluster's current tokens, and sets the marker
    to the cluster. *)
Theorem choose_then_generate_builds_with_the_choice
    (s : State) (cs : list ClusterStats.t) (c : Z) (stats : ClusterStats.t)
    (a : Approach) :
  clusterStats s = Some cs ->
  JS.find (fun e => ClusterStats.cluster e =? c) cs = Some stats ->
  exists s',
    handle (ClickGenerate c) (handleApproachChange c a s) = Returns s' /\
    generationSpecs s' !! c = Some (spec c stats a (currentTokens s c)) /\
    selectedCluster s' = Some c /\
    selectedApproaches s' !! c = Some a.
Proof.
  intros Hcs Hfind.
  rewrite (handle_generate (handleApproachChange c a s) cs c stats Hcs Hfind).
  simpl. rewrite lookup_insert_eq. eexists. split; [reflexivity|].
  simpl. rewrite !lookup_insert_eq. repeat split.
Qed.

(** ** Card colours *)

(** X20.  Every card gets one of the eight colours of the palette (the
    lookup never falls outside the array), and the colours repeat every
    eight cards. *)
Theorem getColor_cycles_through_the_palette (index : nat) :
  (exists color, getColor index = Some color /\ In color colors) /\
  getColor (index + 8) = getColor index.
Proof.
  unfold getColor. change (length colors) with 8%nat. split.
  - assert (H : (index mod 8 < length colors)%nat)
      by (change (length colors) with 8%nat; apply Nat.mod_upper_bound; lia).
    destruct (nth_error colors (index mod 8)) as [color|] eqn:E.
    + exists color. split; [reflexivity|]. now apply (List.nth_error_In _ _ E).
    + apply List.nth_error_None in E. lia.
  - f_equal. replace (index + 8)%nat with (index + 1 * 8)%nat by lia.
    apply Nat.Div0.mod_add.
Qed.

(** ** Instances of the further properties *)

(** The example session ends with the spec of cluster 2 still stored,
    although the table loaded last has cluster 1 only. *)
Example exampleSession_result :
  run exampleSession initialState = Returns exampleSessionState /\
  option_map (map ClusterStats.cluster) (clusterStats exampleSessionState) = Some [1] /\
  option_map GenerationSpec.cluster_id (generationSpecs exampleSessionState !! 2) = Some 2 /\
  selectedCluster exampleSessionState = Some 2 /\
  currentTokens exampleSessionState 2 = [].
Proof. vm_compute. repeat split. Qed.

Lemma exampleSessionState_reachable : reachable exampleSessionState.
Proof.
  apply (run_reachable exampleSession initialState).
  - apply reachable_initial.
  - vm_compute. reflexivity.
Defined.

(** Instance of X3: the motion values 0.1, 0.3, 0.5 of the example
    cluster. *)
Lemma minimum_and_maximum_instance :
  In exampleEntry (sortedStats exampleData) /\
  minimum Motion exampleEntry = Some (ClusterStats.min_motion exampleEntry) /\
  maximum Motion exampleEntry = Some (ClusterStats.max_motion exampleEntry) /\
  isFinite (ClusterStats.min_motion exampleEntry) = true /\
  isFinite (ClusterStats.max_motion exampleEntry) = true /\
  (exists row, In row (rowsOf (ClusterStats.cluster exampleEntry) exampleData) /\
               ClusterStats.min_motion exampleEntry = (cell Motion row || 0%Q)%js) /\
  (exists row, In row (rowsOf (ClusterStats.cluster exampleEntry) exampleData) /\
               ClusterStats.max_motion exampleEntry = (cell Motion row || 0%Q)%js) /\
  (forall row, In row (rowsOf (ClusterStats.cluster exampleEntry) exampleData) ->
     (realOf (ClusterStats.min_motion exampleEntry)
      <= realOf (cell Motion row || 0%Q)%js
      <= realOf (ClusterStats.max_motion exampleEntry))%Q).
Proof.
  assert (Hin : In exampleEntry (sortedStats exampleData))
    by (vm_compute; left; reflexivity).
  split; [exact Hin|]. split; [reflexivity|]. split; [reflexivity|].
  exact (minimum_and_maximum_bracket_the_rows exampleData exampleEntry Motion
           _ _ Hin eq_refl eq_refl).
Defined.

(** Instance of X4: the two-cluster table read backwards; its labels
    are 2 and -1. *)
Lemma aggregate_ignores_row_order_instance :
  Permutation twoClusterData (rev twoClusterData) /\
  Forall (fun row => Label.parsed_as_number (VideoRecord.cluster row) = true)
    twoClusterData /\
  clusterSizes (sortedStats twoClusterData)
  = clusterSizes (sortedStats (rev twoClusterData)) /\
  forall e e' m,
    In e (sortedStats twoClusterData) -> In e' (sortedStats (rev twoClusterData)) ->
    ClusterStats.cluster e = ClusterStats.cluster e' ->
    (forall x x', minimum m e = Some x -> minimum m e' = Some x' ->
                  realOf x == realOf x') /\
    (forall x x', maximum m e = Some x -> maximum m e' = Some x' ->
                  realOf x == realOf x').
Proof.
  assert (Hp : Permutation twoClusterData (rev twoClusterData))
    by apply Permutation_rev.
  assert (Hnum : Forall (fun row => Label.parsed_as_number (VideoRecord.cluster row) = true)
                   twoClusterData)
    by (repeat constructor).
  destruct (aggregate_ignores_row_order twoClusterData (rev twoClusterData) Hp)
    as (_ & Horder & Hbounds).
  split; [exact Hp|]. split; [exact Hnum|]. split; [exact (Horder Hnum) | exact Hbounds].
Defined.

(** Instance of X5: the single cluster of the example table. *)
Lemma constant_metrics_instance :
  let s := exampleState text_driven in
  let cs := sortedStats exampleData in
  clusterStats s = Some cs /\
  Forall finiteStats cs /\
  In exampleEntry cs /\
  (forall m t, In t cs ->
     realOf (average m t) == realOf (average m exampleEntry)) /\
  (forall m, radarValue m (getRadarData s exampleEntry) = Some (JS.Finite 50)) /\
  suggestApproach s exampleEntry = Suggestion rule6.
Proof.
  intros s cs.
  assert (Hcs : clusterStats s = Some cs) by reflexivity.
  assert (Hone : cs = [exampleEntry]) by (vm_compute; reflexivity).
  assert (Hfin : Forall finiteStats cs).
  { rewrite Hone. constructor; [|constructor].
    intros m. destruct m; vm_compute; reflexivity. }
  assert (Hin : In exampleEntry cs) by (rewrite Hone; left; reflexivity).
  assert (Hall : forall m t, In t cs ->
                   realOf (average m t) == realOf (average m exampleEntry)).
  { intros m t Ht. rewrite Hone in Ht.
    assert (E : t = exampleEntry) by (destruct Ht as [<-|[]]; reflexivity).
    rewrite E. reflexivity. }
  split; [exact Hcs|]. split; [exact Hfin|]. split; [exact Hin|].
  split; [exact Hall|].
  exact (constant_metrics_give_the_default_suggestion s cs exampleEntry
           Hcs Hfin Hin Hall).
Defined.

(** Instance of X6: an empty table is loaded. *)
Lemma empty_table_instance :
  let s := handleFileUpload [] initialState in
  clusterStats s = Some [] /\
  length (getRadarData s exampleEntry) = 5%nat /\
  (forall m, radarValue m (getRadarData s exampleEntry) = Some JS.NaN) /\
  suggestApproach s exampleEntry = Suggestion rule6.
Proof.
  intros s. split; [reflexivity|].
  exact (empty_table_gives_NaN_radar_values s exampleEntry eq_refl).
Defined.

(** Instance of X12: the first token of a cluster. *)
Lemma add_then_remove_instance :
  JS.trim " upbeat " <> EmptyString /\
  (length (currentTokens initialState 1) < 3)%nat /\
  ~ In (JS.trim " upbeat ") (currentTokens initialState 1) /\
  currentTokens (addTrendToken 1 " upbeat " initialState) 1
  = currentTokens initialState 1 ++ [JS.trim " upbeat "] /\
  currentTokens
    (removeTrendToken 1 (length (currentTokens initialState 1))
       (addTrendToken 1 " upbeat " initialState)) 1
  = currentTokens initialState 1.
Proof.
  assert (H1 : JS.trim " upbeat " <> EmptyString) by (vm_compute; discriminate).
  assert (H2 : (length (currentTokens initialState 1) < 3)%nat)
    by (vm_compute; lia).
  assert (H3 : ~ In (JS.trim " upbeat ") (currentTokens initialState 1))
    by (vm_compute; tauto).
  split; [exact H1|]. split; [exact H2|]. split; [exact H3|].
  exact (add_then_remove_last_restores 1 " upbeat " initialState H1 H2 H3).
Defined.

(** Instance of X15: the state the example session ends in. *)
Lemma stored_specs_instance :
  reachable exampleSessionState /\
  is_Some (generationSpecs exampleSessionState !! 2) /\
  (forall c g, generationSpecs exampleSessionState !! c = Some g ->
     let tokens := GenerationSpec.tokens (GenerationSpec.trend_tokens g) in
     GenerationSpec.cluster_id g = c /\
     (1 <= GenerationSpec.sample_count (GenerationSpec.constraints g))%nat /\
     (length tokens <= 3)%nat /\ List.NoDup tokens /\
     (forall t, In t tokens -> t <> EmptyString /\ JS.trim t = t) /\
     GenerationSpec.enabled (GenerationSpec.trend_tokens g)
     = negb (length tokens =? 0)%nat /\
     In (GenerationSpec.generation_approach g)
       (map approach_name [text_driven; image_conditioned; motion_focused]) /\
     is_Some (selectedApproaches exampleSessionState !! c)) /\
  (forall c, selectedCluster exampleSessionState = Some c ->
             is_Some (generationSpecs exampleSessionState !! c)).
Proof.
  split; [exact exampleSessionState_reachable|].
  split; [vm_compute; eauto|].
  exact (stored_specs_are_in_order exampleSessionState exampleSessionState_reachable).
Defined.

(** Instance of X16: the same state. *)
Lemma reachable_tokens_instance :
  reachable exampleSessionState /\
  (forall c, (length (currentTokens exampleSessionState c) <= 3)%nat /\
             List.NoDup (currentTokens exampleSessionState c) /\
             forall t, In t (currentTokens exampleSessionState c) ->
               t <> EmptyString /\ JS.trim t = t) /\
  clusterStats exampleSessionState
  = option_map sortedStats (interpretationData exampleSessionState).
Proof.
  split; [exact exampleSessionState_reachable|].
  exact (reachable_tokens_and_aggregate exampleSessionState
           exampleSessionState_reachable).
Defined.

(** Instance of X18: cluster 2 has a spec, then the example table, which
    has cluster 1 only, is loaded. *)
Lemma reupload_instance :
  let s := handleFileUpload exampleData exampleSessionState in
  ~ In 2 (map VideoRecord.cluster exampleData) /\
  is_Some (generationSpecs exampleSessionState !! 2) /\
  generationSpecs s = generationSpecs exampleSessionState /\
  selectedCluster s = selectedCluster exampleSessionState /\
  selectedApproaches s = selectedApproaches exampleSessionState /\
  trendTokens s = trendTokens exampleSessionState /\
  clusterStats s = Some (sortedStats exampleData) /\
  available s (ClickGenerate 2) = false /\
  generateSpec 2 s = Returns s.
Proof.
  intros s.
  assert (Hnot : ~ In 2 (map VideoRecord.cluster exampleData)).
  { simpl. intros [H|[H|[H|[]]]]; discriminate H. }
  split; [exact Hnot|]. split; [vm_compute; eauto|].
  exact (reupload_keeps_specs_of_vanished_clusters exampleSessionState
           exampleData 2 Hnot).
Defined.

(** Instance of X19: cluster 2 of the two-cluster table. *)
Lemma choose_then_generate_instance :
  let s := twoClusterState in
  let cs := sortedStats twoClusterData in
  clusterStats s = Some cs /\
  JS.find (fun e => ClusterStats.cluster e =? 2) cs = Some busyEntry /\
  exists s',
    handle (ClickGenerate 2) (handleApproachChange 2 image_conditioned s) = Returns s' /\
    generationSpecs s' !! 2
    = Some (spec 2 busyEntry image_conditioned (currentTokens s 2)) /\
    selectedCluster s' = Some 2 /\
    selectedApproaches s' !! 2 = Some image_conditioned.
Proof.
  intros s cs.
  assert (Hf : JS.find (fun e => ClusterStats.cluster e =? 2) cs = Some busyEntry)
    by (vm_compute; reflexivity).
  split; [reflexivity|]. split; [exact Hf|].
  exact (choose_then_generate_builds_with_the_choice s cs 2 busyEntry
           image_conditioned eq_refl Hf).
Defined.
